(** * phonecaller.py: phone matching, webhook listener and AMI call correlation

    A shallow embedding of the core of [src/phonecaller.py]: the phone
    normalizer and matcher of [WooCommerceClient], the number matcher of
    [AsteriskAMI], the webhook handler [WebhookHandler.do_POST], the event
    correlator [AsteriskAMI._process_event] with its dedup cache, and the
    reconnect loop [AsteriskAMI._reconnect].

    A Python [str] is modelled as a [string] of 8-bit code points.  On this
    range the decimal digits matched by the regular expression class [\d]
    are exactly '0'..'9'; [upper] is the ASCII one. *)

From Stdlib Require Import ZArith Ascii String List Bool Lia Permutation DecimalString.
From stdpp Require Import base gmap strings list.

Set Warnings "-register-all".

(** ** Python string primitives *)

Definition is_digit (c : ascii) : bool := (("0" <=? c) && (c <=? "9"))%char.

(** [re.sub(r'\D', '', s)] *)
Fixpoint strip_non_digits (s : string) : string :=
  match s with
  | EmptyString => EmptyString
  | String c s' =>
      if is_digit c then String c (strip_non_digits s') else strip_non_digits s'
  end.

(** [s.startswith(p)] *)
Fixpoint startswith (s p : string) {struct p} : bool :=
  match p with
  | EmptyString => true
  | String a p' =>
      match s with
      | EmptyString => false
      | String b s' => Ascii.eqb a b && startswith s' p'
      end
  end.

(** [s[n:]] for a non-negative [n] *)
Fixpoint str_drop (n : nat) (s : string) : string :=
  match n with
  | O => s
  | S n' => match s with
            | EmptyString => EmptyString
            | String _ s' => str_drop n' s'
            end
  end.

(** [s[-n:]] for a positive [n]: the whole string when it is shorter *)
Definition str_last (n : nat) (s : string) : string :=
  str_drop (String.length s - n) s.

(** [needle in hay] *)
Fixpoint str_in (needle hay : string) : bool :=
  startswith hay needle ||
  match hay with
  | EmptyString => false
  | String _ hay' => str_in needle hay'
  end.

(** [s.lstrip('0')] *)
Fixpoint lstrip_zeros (s : string) : string :=
  match s with
  | EmptyString => EmptyString
  | String c s' => if Ascii.eqb c "0" then lstrip_zeros s' else s
  end.

Definition upper_char (c : ascii) : ascii :=
  if (("a" <=? c) && (c <=? "z"))%char
  then ascii_of_nat (nat_of_ascii c - 32)
  else c.

(** [s.upper()] *)
Fixpoint upper (s : string) : string :=
  match s with
  | EmptyString => EmptyString
  | String c s' => String (upper_char c) (upper s')
  end.

(** The characters removed by [str.strip()], those for which [str.isspace]
    holds: tab, line feed, vertical tab, form feed, carriage return, the
    separators 0x1c..0x1f, the space, the next-line control 0x85 and the
    no-break space 0xa0. *)
Definition is_space (c : ascii) : bool :=
  let n := nat_of_ascii c in
  ((9 <=? n) && (n <=? 13)) || ((28 <=? n) && (n <=? 32))
  || (n =? 133) || (n =? 160).

Fixpoint lstrip (s : string) : string :=
  match s with
  | EmptyString => EmptyString
  | String c s' => if is_space c then lstrip s' else s
  end.

Fixpoint rstrip (s : string) : string :=
  match s with
  | EmptyString => EmptyString
  | String c s' =>
      let r := rstrip s' in
      if is_space c && String.eqb r "" then EmptyString else String c r
  end.

(** [s.strip()] *)
Definition strip (s : string) : string := rstrip (lstrip s).

(** [s.partition(sep)] for a one-character separator: [None] when [sep]
    does not occur, otherwise the text before and after its first
    occurrence. *)
Fixpoint partition (sep : ascii) (s : string) : option (string * string) :=
  match s with
  | EmptyString => None
  | String c s' =>
      if Ascii.eqb c sep then Some (EmptyString, s')
      else match partition sep s' with
           | Some (k, v) => Some (String c k, v)
           | None => None
           end
  end.

(** [s.split(sep)[0]] *)
Definition before_first (sep : ascii) (s : string) : string :=
  match partition sep s with
  | Some (k, _) => k
  | None => s
  end.

Definition cons_head (c : ascii) (l : list string) : list string :=
  match l with
  | [] => [String c EmptyString]
  | x :: xs => String c x :: xs
  end.

(** [s.split('\r\n')] *)
Fixpoint split_crlf (s : string) : list string :=
  match s with
  | EmptyString => [EmptyString]
  | String c s' =>
      match s' with
      | String d rest =>
          if Ascii.eqb c "013" && Ascii.eqb d "010"
          then EmptyString :: split_crlf rest
          else cons_head c (split_crlf s')
      | EmptyString => cons_head c (split_crlf s')
      end
  end.

(** [l[-n:]] on a list, for a positive [n] *)
Definition list_last {A} (n : nat) (l : list A) : list A :=
  skipn (length l - n) l.

(** ** Phone normalizer and matcher ([WooCommerceClient]) *)

Definition country_prefixes : list string :=
  ["1"; "44"; "49"; "33"; "39"; "34"; "31"; "98"; "359"].

(** The [for prefix in [...]] loop of [normalize_phone], with its [break]. *)
Fixpoint strip_country_prefix (prefixes : list string) (digits : string) : string :=
  match prefixes with
  | [] => digits
  | prefix :: rest =>
      if startswith digits prefix && (10 <? String.length digits)
      then str_drop (String.length prefix) digits
      else strip_country_prefix rest digits
  end.

Definition normalize_phone (phone : string) : string :=
  let digits := strip_non_digits phone in
  let digits :=
    if 10 <? String.length digits then
      let digits :=
        if startswith digits "00" then str_drop 2 digits
        else if startswith digits "0" then str_drop 1 digits
        else digits in
      strip_country_prefix country_prefixes digits
    else digits in
  if 10 <=? String.length digits then str_last 10 digits else digits.

Definition _phone_matches (normalized_search normalized_billing : string) : bool :=
  if String.eqb normalized_search "" || String.eqb normalized_billing "" then false
  else if str_in normalized_search normalized_billing
          || str_in normalized_billing normalized_search then true
  else if (9 <=? String.length normalized_search)
          && (9 <=? String.length normalized_billing) then
    if String.eqb (str_last 9 normalized_search) (str_last 9 normalized_billing)
    then true else false
  else false.

(** The match of the order lookup, as [search_orders_by_phone] applies it to
    the searched phone and a billing phone: normalize both, then compare. *)
Definition lookup_match (phone billing_phone : string) : bool :=
  _phone_matches (normalize_phone phone) (normalize_phone billing_phone).

(** ** Number matcher of [AsteriskAMI] *)

Definition _normalize_number (number : string) : string :=
  lstrip_zeros (strip_non_digits number).

Definition _numbers_match (num1 num2 : string) : bool :=
  let n1 := _normalize_number num1 in
  let n2 := _normalize_number num2 in
  if String.eqb n1 "" || String.eqb n2 "" then false
  else str_in n1 n2 || str_in n2 n1
       || ((9 <=? String.length n1) && (9 <=? String.length n2)
           && String.eqb (str_last 9 n1) (str_last 9 n2)).

(** ** Webhook listener ([WebhookHandler.do_POST]) *)

(** The values [json.loads] returns.  [JFloat m e] is the float read from a
    decimal literal of value [m * 10^e]; [JNonFinite] stands for the
    literals NaN, Infinity and -Infinity. *)
Inductive json : Type :=
| JNull
| JBool (b : bool)
| JInt (z : Z)
| JFloat (m e : Z)
| JNonFinite
| JStr (s : string)
| JArr (items : list json)
| JObj (members : list (string * json)).

(** A decimal literal is read as the float zero when it is zero or when it
    rounds to zero, that is when it is at most half the least subnormal
    double, 2^-1075. *)
Definition float_is_zero (m e : Z) : bool :=
  (m =? 0)%Z || ((e <? 0)%Z && (Z.abs m * 2 ^ 1075 <=? 10 ^ (- e))%Z).

(** Python truth value of a decoded JSON value ([if phone:]). *)
Definition truthy (v : json) : bool :=
  match v with
  | JNull => false
  | JBool b => b
  | JInt z => negb (z =? 0)%Z
  | JFloat m e => negb (float_is_zero m e)
  | JNonFinite => true
  | JStr s => negb (String.eqb s "")
  | JArr items => match items with [] => false | _ => true end
  | JObj members => match members with [] => false | _ => true end
  end.

(** Lookup in a decoded object; of two members with one name the later one
    is kept, as in the dict [json.loads] builds. *)
Fixpoint obj_get (members : list (string * json)) (key : string) : option json :=
  match members with
  | [] => None
  | (k, v) :: rest =>
      match obj_get rest key with
      | Some v' => Some v'
      | None => if String.eqb k key then Some v else None
      end
  end.

(** The exceptions the handler body can raise on a decoded request. *)
Inductive exn : Type := JSONDecodeError | AttributeError | TypeError.

(** What the handler writes after the headers: nothing, a JSON document, or
    [{"error": str(e)}] for a caught exception [e]. *)
Inductive payload : Type :=
| NoBody
| JsonBody (j : json)
| ErrorBody (e : exn).

Record response : Type := { resp_status : Z; resp_body : payload }.

(** One emission of the [incoming_call(str, dict)] signal. *)
Record notification : Type :=
  { n_phone : string; n_metadata : gmap string string }.

(** A POST request: its path and its body, already read and decoded. *)
Record request : Type := { req_path : string; req_body : string }.

Definition android_source : gmap string string := {[ "source" := "android" ]}.

Definition status_ok : json := JObj [("status", JStr "ok")].
Definition phone_required : json := JObj [("error", JStr "phone required")].

Section Webhook.
(** [json.loads], a library function: either raises or returns a value. *)
Variable loads : string -> exn + json.

Definition do_POST (req : request) : response * list notification :=
  if String.eqb (req_path req) "/incoming-call" then
    match loads (req_body req) with
    | inl e => ({| resp_status := 500; resp_body := ErrorBody e |}, [])
    | inr data =>
        match data with
        | JObj members =>
            let phone := default (JStr "") (obj_get members "phone") in
            if truthy phone then
              (* the signal is declared [pyqtSignal(str, dict)]: emitting
                 anything but a str raises TypeError *)
              match phone with
              | JStr p =>
                  ({| resp_status := 200; resp_body := JsonBody status_ok |},
                   [{| n_phone := p; n_metadata := android_source |}])
              | _ => ({| resp_status := 500; resp_body := ErrorBody TypeError |}, [])
              end
            else
              ({| resp_status := 400; resp_body := JsonBody phone_required |}, [])
        | _ =>
            (* [data.get] on a value that is not a dict *)
            ({| resp_status := 500; resp_body := ErrorBody AttributeError |}, [])
        end
    end
  else ({| resp_status := 404; resp_body := NoBody |}, []).
End Webhook.

(** *** A decoder for the request bodies

    [json_loads] follows the grammar of Python's [json.loads] on strings of
    8-bit code points; an escape [\uXXXX] above [ÿ] has no image in this
    string model and is refused. *)

Definition dquote : ascii := "034"%char.
Definition backslash : ascii := "092"%char.

Definition is_json_ws (c : ascii) : bool :=
  Ascii.eqb c " " || Ascii.eqb c "009" || Ascii.eqb c "010" || Ascii.eqb c "013".

Fixpoint skip_ws (s : string) : string :=
  match s with
  | EmptyString => EmptyString
  | String c s' => if is_json_ws c then skip_ws s' else s
  end.

Definition hex_val (c : ascii) : option nat :=
  let n := nat_of_ascii c in
  if (48 <=? n) && (n <=? 57) then Some (n - 48)
  else if (65 <=? n) && (n <=? 70) then Some (n - 55)
  else if (97 <=? n) && (n <=? 102) then Some (n - 87)
  else None.

Definition scan_hex4 (s : string) : option (nat * string) :=
  match s with
  | String a (String b (String c (String d rest))) =>
      match hex_val a, hex_val b, hex_val c, hex_val d with
      | Some x, Some y, Some z, Some w => Some (((x * 16 + y) * 16 + z) * 16 + w, rest)
      | _, _, _, _ => None
      end
  | _ => None
  end.

Definition unescape (c : ascii) : option ascii :=
  if Ascii.eqb c dquote then Some dquote
  else if Ascii.eqb c backslash then Some backslash
  else if Ascii.eqb c "/" then Some "/"%char
  else if Ascii.eqb c "b" then Some "008"%char
  else if Ascii.eqb c "f" then Some "012"%char
  else if Ascii.eqb c "n" then Some "010"%char
  else if Ascii.eqb c "r" then Some "013"%char
  else if Ascii.eqb c "t" then Some "009"%char
  else None.

(** The text of a string literal after its opening quote, and what follows
    the closing quote. *)
Fixpoint scan_string (fuel : nat) (s : string) : option (string * string) :=
  match fuel with
  | O => None
  | S fuel' =>
      match s with
      | EmptyString => None
      | String c rest =>
          if Ascii.eqb c dquote then Some (EmptyString, rest)
          else if Ascii.eqb c backslash then
            match rest with
            | EmptyString => None
            | String e rest' =>
                if Ascii.eqb e "u" then
                  match scan_hex4 rest' with
                  | Some (code, rest'') =>
                      if code <? 256 then
                        match scan_string fuel' rest'' with
                        | Some (str, r) => Some (String (ascii_of_nat code) str, r)
                        | None => None
                        end
                      else None
                  | None => None
                  end
                else
                  match unescape e with
                  | Some ch =>
                      match scan_string fuel' rest' with
                      | Some (str, r) => Some (String ch str, r)
                      | None => None
                      end
                  | None => None
                  end
            end
          else if nat_of_ascii c <? 32 then None
          else
            match scan_string fuel' rest with
            | Some (str, r) => Some (String c str, r)
            | None => None
            end
      end
  end.

Fixpoint take_digits (s : string) : string * string :=
  match s with
  | EmptyString => (EmptyString, EmptyString)
  | String c s' =>
      if is_digit c
      then let '(ds, r) := take_digits s' in (String c ds, r)
      else (EmptyString, s)
  end.

Fixpoint digits_value (acc : Z) (ds : string) : Z :=
  match ds with
  | EmptyString => acc
  | String c ds' => digits_value (acc * 10 + Z.of_nat (nat_of_ascii c - 48))%Z ds'
  end.

(** A number literal: an optional minus sign, an integer part without
    leading zeros, an optional fraction and an optional exponent. *)
Definition scan_number (s : string) : option (json * string) :=
  let '(neg, s1) := if startswith s "-" then (true, str_drop 1 s) else (false, s) in
  let sign := fun z : Z => if neg then (- z)%Z else z in
  let '(ip, s2) :=
    if startswith s1 "0" then ("0", str_drop 1 s1) else take_digits s1 in
  if String.eqb ip "" then None
  else
    let '(frac, s3) :=
      if startswith s2 "." then
        let '(fd, r) := take_digits (str_drop 1 s2) in
        if String.eqb fd "" then (EmptyString, s2) else (fd, r)
      else (EmptyString, s2) in
    let '(ex, s4) :=
      if startswith s3 "e" || startswith s3 "E" then
        let r0 := str_drop 1 s3 in
        let '(eneg, r1) :=
          if startswith r0 "-" then (true, str_drop 1 r0)
          else if startswith r0 "+" then (false, str_drop 1 r0)
          else (false, r0) in
        let '(ed, r2) := take_digits r1 in
        if String.eqb ed "" then (None, s3)
        else (Some (if eneg then (- digits_value 0 ed)%Z else digits_value 0 ed), r2)
      else (None, s3) in
    match frac, ex with
    | EmptyString, None => Some (JInt (sign (digits_value 0 ip)), s4)
    | _, _ =>
        Some (JFloat (sign (digits_value (digits_value 0 ip) frac))
                     (default 0%Z ex - Z.of_nat (String.length frac))%Z, s4)
    end.

Fixpoint parse_value (fuel : nat) (s : string) : option (json * string) :=
  match fuel with
  | O => None
  | S fuel' =>
      match s with
      | EmptyString => None
      | String c rest =>
          if Ascii.eqb c dquote then
            match scan_string (S (String.length rest)) rest with
            | Some (str, r) => Some (JStr str, r)
            | None => None
            end
          else if Ascii.eqb c "{" then
            let r := skip_ws rest in
            if startswith r "}" then Some (JObj [], str_drop 1 r)
            else
              match parse_members fuel' r with
              | Some (ms, r') => Some (JObj ms, r')
              | None => None
              end
          else if Ascii.eqb c "[" then
            let r := skip_ws rest in
            if startswith r "]" then Some (JArr [], str_drop 1 r)
            else
              match parse_elements fuel' r with
              | Some (vs, r') => Some (JArr vs, r')
              | None => None
              end
          else if startswith s "null" then Some (JNull, str_drop 4 s)
          else if startswith s "true" then Some (JBool true, str_drop 4 s)
          else if startswith s "false" then Some (JBool false, str_drop 5 s)
          else if startswith s "NaN" then Some (JNonFinite, str_drop 3 s)
          else if startswith s "Infinity" then Some (JNonFinite, str_drop 8 s)
          else if startswith s "-Infinity" then Some (JNonFinite, str_drop 9 s)
          else scan_number s
      end
  end
with parse_members (fuel : nat) (s : string) : option (list (string * json) * string) :=
  match fuel with
  | O => None
  | S fuel' =>
      match s with
      | EmptyString => None
      | String c rest =>
          if Ascii.eqb c dquote then
            match scan_string (S (String.length rest)) rest with
            | Some (key, r) =>
                let r := skip_ws r in
                if startswith r ":" then
                  match parse_value fuel' (skip_ws (str_drop 1 r)) with
                  | Some (v, r) =>
                      let r := skip_ws r in
                      if startswith r "}" then Some ([(key, v)], str_drop 1 r)
                      else if startswith r "," then
                        match parse_members fuel' (skip_ws (str_drop 1 r)) with
                        | Some (ms, r') => Some ((key, v) :: ms, r')
                        | None => None
                        end
                      else None
                  | None => None
                  end
                else None
            | None => None
            end
          else None
      end
  end
with parse_elements (fuel : nat) (s : string) : option (list json * string) :=
  match fuel with
  | O => None
  | S fuel' =>
      match parse_value fuel' s with
      | Some (v, r) =>
          let r := skip_ws r in
          if startswith r "]" then Some ([v], str_drop 1 r)
          else if startswith r "," then
            match parse_elements fuel' (skip_ws (str_drop 1 r)) with
            | Some (vs, r') => Some (v :: vs, r')
            | None => None
            end
          else None
      | None => None
      end
  end.

Definition json_loads (s : string) : exn + json :=
  match parse_value (2 * String.length s + 2) (skip_ws s) with
  | Some (v, r) =>
      if String.eqb (skip_ws r) "" then inr v else inl JSONDecodeError
  | None => inl JSONDecodeError
  end.

(** ** Call correlator and dedup cache ([AsteriskAMI._process_event]) *)

(** The fields of an [AsteriskAMI] object the correlator and the reconnect
    loop read or write.  The set [_processed_calls] is kept as the list of
    its members, oldest insertion first, so that the age of an entry can be
    spoken of; the set itself carries no order, and the order in which
    Python enumerates it is the parameter [iter_order] below. *)
Record ami : Type := {
  watch_channel : string;
  _processed_calls : list string;
  connected : bool;
  running : bool;
  _auto_reconnect : bool;
  _reconnect_delay : Z
}.

Definition set_processed_calls (self : ami) (calls : list string) : ami :=
  {| watch_channel := watch_channel self;
     _processed_calls := calls;
     connected := connected self;
     running := running self;
     _auto_reconnect := _auto_reconnect self;
     _reconnect_delay := _reconnect_delay self |}.

Definition set_connected (self : ami) (b : bool) : ami :=
  {| watch_channel := watch_channel self;
     _processed_calls := _processed_calls self;
     connected := b;
     running := running self;
     _auto_reconnect := _auto_reconnect self;
     _reconnect_delay := _reconnect_delay self |}.

(** [AsteriskAMI.__init__] on a configured watch channel. *)
Definition ami_init (configured_channel : string) : ami :=
  {| watch_channel := upper configured_channel;
     _processed_calls := [];
     connected := false;
     running := false;
     _auto_reconnect := true;
     _reconnect_delay := 5 |}.

(** The frame decoding at the head of [_process_event]: one field per line
    that holds a colon, split at the first colon, both sides stripped. *)
Definition parse_event (event_str : string) : gmap string string :=
  fold_left
    (fun event line =>
       match partition ":" line with
       | Some (key, value) => <[strip key := strip value]> event
       | None => event
       end)
    (split_crlf (strip event_str)) ∅.

(** [event.get(key, dflt)] *)
Definition event_get (event : gmap string string) (key dflt : string) : string :=
  default dflt (event !! key).

Definition placeholders : list string := ["<unknown>"; ""; "s"; "anonymous"].

Definition str_truthy (s : string) : bool := negb (String.eqb s "").

Definition opt_truthy (o : option string) : bool :=
  match o with
  | Some s => str_truthy s
  | None => false
  end.

(** [v if v and v not in ('<unknown>', '', 's', 'anonymous') else None] *)
Definition real_caller (v : string) : option string :=
  if str_truthy v && negb (existsb (String.eqb v) placeholders)
  then Some v else None.

(** [ch.upper().split('-')[0]] *)
Definition channel_base (ch : string) : string := before_first "-" (upper ch).

(** The three detection methods; each one takes and returns the pair of the
    local variables [(actual_caller, matched)]. *)
Definition method_dial_begin (self : ami) (event : gmap string string)
    (st : option string * bool) : option string * bool :=
  let event_type := event_get event "Event" "" in
  let caller_id := event_get event "CallerIDNum" "" in
  let dest_channel := event_get event "DestChannel" "" in
  if String.eqb event_type "DialBegin" && str_truthy (watch_channel self)
     && str_truthy dest_channel then
    let dest_base := channel_base dest_channel in
    if String.eqb dest_base (watch_channel self) then
      let actual_caller := real_caller caller_id in
      if opt_truthy actual_caller then (actual_caller, true)
      else (actual_caller, snd st)
    else st
  else st.

Definition method_dial_state (self : ami) (event : gmap string string)
    (st : option string * bool) : option string * bool :=
  let event_type := event_get event "Event" "" in
  let caller_id := event_get event "CallerIDNum" "" in
  let dest_channel := event_get event "DestChannel" "" in
  let state := event_get event "ChannelStateDesc" "" in
  if negb (snd st) && String.eqb event_type "DialState"
     && str_truthy (watch_channel self) && str_truthy dest_channel then
    let dest_base := channel_base dest_channel in
    if String.eqb dest_base (watch_channel self) && String.eqb state "Ringing" then
      let actual_caller := real_caller caller_id in
      if opt_truthy actual_caller then (actual_caller, true)
      else (actual_caller, snd st)
    else st
  else st.

Definition method_newstate (self : ami) (event : gmap string string)
    (st : option string * bool) : option string * bool :=
  let event_type := event_get event "Event" "" in
  let channel := event_get event "Channel" "" in
  let caller_id := event_get event "CallerIDNum" "" in
  let connected_num := event_get event "ConnectedLineNum" "" in
  let state := event_get event "ChannelStateDesc" "" in
  if negb (snd st) && String.eqb event_type "Newstate" && String.eqb state "Ringing"
     && str_truthy (watch_channel self) && str_truthy channel then
    let channel_base := channel_base channel in
    if String.eqb channel_base (watch_channel self) then
      let actual_caller := real_caller connected_num in
      let actual_caller :=
        if negb (opt_truthy actual_caller) then real_caller caller_id
        else actual_caller in
      if opt_truthy actual_caller then (actual_caller, true)
      else (actual_caller, snd st)
    else st
  else st.

(** The candidate caller and the match flag after the three methods. *)
Definition correlate (self : ami) (event : gmap string string) : option string * bool :=
  method_newstate self event
    (method_dial_state self event
       (method_dial_begin self event (None, false))).

(** [event.get('Linkedid', unique_id)] with
    [unique_id = event.get('Uniqueid', '')] *)
Definition linked_id_of (event : gmap string string) : string :=
  let unique_id := event_get event "Uniqueid" "" in
  event_get event "Linkedid" unique_id.

(** [f"call_{linked_id}_{actual_caller}"] *)
Definition call_key (event : gmap string string) (actual_caller : string) : string :=
  let linked_id := linked_id_of event in
  "call_" +:+ linked_id +:+ "_" +:+ actual_caller.

Section Correlator.
(** [list(s)] on the set held as the list [s]: some enumeration of its
    members, in an order Python does not specify. *)
Variable iter_order : list string -> list string.

(** [_process_event] on a decoded record: the object after the call and
    the notifications emitted. *)
Definition process_record (self : ami) (event : gmap string string)
    : ami * list notification :=
  let '(actual_caller, matched) := correlate self event in
  if matched && opt_truthy actual_caller then
    match actual_caller with
    | Some caller =>
        let key := call_key event caller in
        if negb (existsb (String.eqb key) (_processed_calls self)) then
          let calls := _processed_calls self ++ [key] in
          let calls :=
            if 200 <? length calls then list_last 100 (iter_order calls)
            else calls in
          (set_processed_calls self calls,
           [{| n_phone := caller; n_metadata := event |}])
        else (self, [])
    | None => (self, [])
    end
  else (self, []).

Definition _process_event (self : ami) (event_str : string)
    : ami * list notification :=
  process_record self (parse_event event_str).

(** A run of the correlator over a sequence of records. *)
Fixpoint process_records (self : ami) (events : list (gmap string string))
    : ami * list notification :=
  match events with
  | [] => (self, [])
  | event :: rest =>
      let '(self1, out1) := process_record self event in
      let '(self2, out2) := process_records self1 rest in
      (self2, out1 ++ out2)
  end.

(** "the cache stays within its capacity of 200" over a run: at no record
    does the set, with the key of the record added, hold more than 200 keys,
    so that the test [len(self._processed_calls) > 200] never succeeds and
    nothing is trimmed.  A record adds its key exactly when it emits its
    Notification, so the set holds [length cache + length out] keys when
    the test is made. *)
Fixpoint within_capacity (self : ami) (events : list (gmap string string))
    : bool :=
  match events with
  | [] => true
  | event :: rest =>
      let '(self1, out) := process_record self event in
      (length (_processed_calls self) + length out <=? 200)
      && within_capacity self1 rest
  end.
End Correlator.

(** ** Reconnect loop ([AsteriskAMI._reconnect]) *)

(** What the surroundings decide in one turn of the loop: whether
    [disconnect()] is called from another thread during the sleep, and
    whether [connect()] then succeeds. *)
Record attempt : Type := { stopped_in_sleep : bool; connect_ok : bool }.

(** The visible effects of the loop. *)
Inductive effect : Type :=
| StatusReconnecting (delay : Z)
| Sleep (delay : Z)
| Connect (ok : bool).

(** [AsteriskAMI.disconnect] *)
Definition disconnect (self : ami) : ami :=
  {| watch_channel := watch_channel self;
     _processed_calls := _processed_calls self;
     connected := false;
     running := false;
     _auto_reconnect := false;
     _reconnect_delay := _reconnect_delay self |}.

(** The flags [AsteriskAMI.start_listening] sets before it starts the
    event loop. *)
Definition start_listening (self : ami) : ami :=
  {| watch_channel := watch_channel self;
     _processed_calls := _processed_calls self;
     connected := connected self;
     running := true;
     _auto_reconnect := true;
     _reconnect_delay := _reconnect_delay self |}.

Definition max_delay : Z := 60.

(** [min(self._reconnect_delay * (2 ** retry_count), max_delay)] *)
Definition backoff_delay (self : ami) (retry_count : Z) : Z :=
  Z.min (_reconnect_delay self * 2 ^ retry_count) max_delay.

(** The [while] loop of [_reconnect] from a given [retry_count], run against
    a finite list of turns.  The result is [Some b] when the method returns
    [b], and [None] when the turns are used up with the loop still going. *)
Fixpoint reconnect_loop (turns : list attempt) (self : ami) (retry_count : Z)
    : option bool * ami * list effect :=
  if running self && _auto_reconnect self && negb (connected self) then
    match turns with
    | [] => (None, self, [])
    | turn :: rest =>
        let delay := backoff_delay self retry_count in
        let slept := [StatusReconnecting delay; Sleep delay] in
        let self := if stopped_in_sleep turn then disconnect self else self in
        if negb (running self) || negb (_auto_reconnect self) then
          (Some false, self, slept)
        else if connect_ok turn then
          (Some true, set_connected self true, slept ++ [Connect true])
        else
          let '(res, self', effs) := reconnect_loop rest self (retry_count + 1) in
          (res, self', slept ++ Connect false :: effs)
    end
  else (Some false, self, []).

Definition _reconnect (turns : list attempt) (self : ami)
    : option bool * ami * list effect :=
  reconnect_loop turns self 0.

(** The delays slept, in order. *)
Definition sleeps (effs : list effect) : list Z :=
  omap (fun e => match e with Sleep d => Some d | _ => None end) effs.

(** ** The specification's wording, for comparison with the code *)

(** "a substring of the other" *)
Definition is_substring (a b : string) : Prop :=
  exists l r : string, b = l +:+ a +:+ r.

(** "both have at least 9 digits and their last 9 digits are equal" *)
Definition last9_equal (a b : string) : Prop :=
  exists pa pb suffix : string,
    a = pa +:+ suffix /\ b = pb +:+ suffix /\ String.length suffix = 9.

(** The condition of section 4.1 on two normalized values. *)
Definition spec_match_cond (na nb : string) : Prop :=
  is_substring na nb \/ is_substring nb na \/ last9_equal na nb.

(** "remove a leading 00, else remove a single leading 0" *)
Definition spec_strip_zeros (digits : string) : string :=
  if startswith digits "00"
  then String.substring 2 (String.length digits - 2) digits
  else if startswith digits "0"
  then String.substring 1 (String.length digits - 1) digits
  else digits.

(** "strip the first prefix that matches and that still leaves more than 10
    digits", read as written: the digits left after the strip are counted. *)
Definition spec_strip_prefix (digits : string) : string :=
  match find (fun p => startswith digits p
                       && (10 <? String.length digits - String.length p))
             country_prefixes with
  | Some p => String.substring (String.length p)
                (String.length digits - String.length p) digits
  | None => digits
  end.

(** The same step with the count taken before the strip. *)
Definition amended_strip_prefix (digits : string) : string :=
  match find (fun p => startswith digits p) country_prefixes with
  | Some p =>
      if 10 <? String.length digits
      then String.substring (String.length p)
             (String.length digits - String.length p) digits
      else digits
  | None => digits
  end.

(** "the last 10 digits if at least 10 remain, otherwise the full digit
    string" *)
Definition spec_last10 (digits : string) : string :=
  if 10 <=? String.length digits
  then String.substring (String.length digits - 10) 10 digits
  else digits.

Definition normalize_spec (raw : string) : string :=
  let digits := strip_non_digits raw in
  if 10 <? String.length digits
  then spec_last10 (spec_strip_prefix (spec_strip_zeros digits))
  else spec_last10 digits.

Definition normalize_amended (raw : string) : string :=
  let digits := strip_non_digits raw in
  if 10 <? String.length digits
  then spec_last10 (amended_strip_prefix (spec_strip_zeros digits))
  else spec_last10 digits.

(** ** Sample requests, records and runs *)

Definition quoted (s : string) : string :=
  String dquote s +:+ String dquote "".

(** The body [{"phone": "<p>"}]. *)
Definition body_with_phone (p : string) : string :=
  "{" +:+ quoted "phone" +:+ ": " +:+ quoted p +:+ "}".

Definition incoming_call (body : string) : request :=
  {| req_path := "/incoming-call"; req_body := body |}.

(** An object watching SIP/1034, after [start_listening]. *)
Definition watcher : ami := start_listening (ami_init "sip/1034").

(** A DialBegin record towards the watched channel. *)
Definition dial_begin (linked_id caller : string) : gmap string string :=
  list_to_map
    [("Event", "DialBegin"); ("Channel", "SIP/trunk-00000a1a");
     ("DestChannel", "SIP/1034-00000a1b"); ("CallerIDNum", caller);
     ("Uniqueid", linked_id); ("Linkedid", linked_id)].

(** A DialState record towards the watched channel, ringing. *)
Definition dial_state (linked_id caller : string) : gmap string string :=
  list_to_map
    [("Event", "DialState"); ("Channel", "SIP/trunk-00000a1a");
     ("DestChannel", "SIP/1034-00000a1b"); ("ChannelStateDesc", "Ringing");
     ("CallerIDNum", caller); ("Uniqueid", linked_id); ("Linkedid", linked_id)].

(** A Newstate record of the watched channel, ringing. *)
Definition newstate (linked_id connected_num caller : string) : gmap string string :=
  list_to_map
    [("Event", "Newstate"); ("Channel", "SIP/1034-00000a1b");
     ("ChannelStateDesc", "Ringing"); ("ConnectedLineNum", connected_num);
     ("CallerIDNum", caller); ("Uniqueid", linked_id); ("Linkedid", linked_id)].

Definition decimal (n : nat) : string := NilEmpty.string_of_uint (Nat.to_uint n).

(** The [k]-th of a series of calls from distinct callers. *)
Definition other_call (k : nat) : gmap string string :=
  dial_begin ("1700000000." +:+ decimal k) ("0888100" +:+ decimal (100 + k)).

Definition other_calls (n : nat) : list (gmap string string) :=
  map other_call (seq 0 n).

Definition count_phone (p : string) (out : list notification) : nat :=
  length (filter (fun n => String.eqb (n_phone n) p) out).

(** Two enumeration orders of the cache: oldest first and newest first. *)
Definition oldest_first (calls : list string) : list string := calls.
Definition newest_first (calls : list string) : list string := rev calls.

Definition failed_turn : attempt := {| stopped_in_sleep := false; connect_ok := false |}.
Definition good_turn : attempt := {| stopped_in_sleep := false; connect_ok := true |}.

(** [n] failed attempts and then a successful one. *)
Definition failures_then_success (n : nat) : list attempt :=
  repeat failed_turn n ++ [good_turn].


(** ** Further predicates used in the statements *)

(** Every character is one of '0'..'9'. *)
Fixpoint only_digits (s : string) : bool :=
  match s with
  | EmptyString => true
  | String c s' => is_digit c && only_digits s'
  end.

(** ** Frame splitting and the read step of [AsteriskAMI._event_loop] *)

Definition CRLF : string := String "013" (String "010" EmptyString).

(** The frame terminator, ['\r\n\r\n']. *)
Definition frame_end : string := CRLF +:+ CRLF.

(** [s.split(sep, 1)] when [sep] occurs in [s]: the text before and the text
    after its first occurrence; [None] when it does not occur. *)
Fixpoint split_once (sep s : string) : option (string * string) :=
  if startswith s sep then Some (EmptyString, str_drop (String.length sep) s)
  else
    match s with
    | EmptyString => None
    | String c s' =>
        match split_once sep s' with
        | Some (before, after) => Some (String c before, after)
        | None => None
        end
    end.

(** The loop [while '\r\n\r\n' in buffer: event_str, buffer =
    buffer.split('\r\n\r\n', 1); ...]: the frames taken off the buffer, in
    order, and the buffer left.  [fuel] bounds the number of turns. *)
Fixpoint drain (fuel : nat) (buffer : string) : list string * string :=
  match fuel with
  | O => ([], buffer)
  | S fuel' =>
      if str_in frame_end buffer then
        match split_once frame_end buffer with
        | Some (event_str, rest) =>
            let '(events, final) := drain fuel' rest in
            (event_str :: events, final)
        | None => ([], buffer)
        end
      else ([], buffer)
  end.

(** Every turn shortens the buffer, so its length is fuel enough. *)
Definition split_frames (buffer : string) : list string * string :=
  drain (String.length buffer) buffer.

(** What [self.socket.recv(4096).decode('utf-8')] gives the loop: text (empty
    when the peer has closed), a timeout, or another exception. *)
Inductive recv_result : Type :=
| RecvData (data : string)
| RecvTimeout
| RecvError.

Section EventLoop.
Variable iter_order : list string -> list string.

(** [_process_event] on each frame in turn. *)
Fixpoint process_events (self : ami) (event_strs : list string)
    : ami * list notification :=
  match event_strs with
  | [] => (self, [])
  | event_str :: rest =>
      let '(self1, out1) := _process_event iter_order self event_str in
      let '(self2, out2) := process_events self1 rest in
      (self2, out1 ++ out2)
  end.

(** One turn of the [while self.running] loop of [_event_loop] on a
    connected object, after the [recv]: the object and the buffer after the
    turn, the notifications emitted and the connection statuses emitted. *)
Definition on_recv (self : ami) (buffer : string) (r : recv_result)
    : ami * string * list notification * list (bool * string) :=
  match r with
  | RecvData data =>
      if String.eqb data "" then
        (set_connected self false, buffer, [], [(false, "Disconnected")])
      else
        let buffer := buffer +:+ data in
        let '(event_strs, buffer) := split_frames buffer in
        let '(self, out) := process_events self event_strs in
        (self, buffer, out, [])
  | RecvTimeout => (self, buffer, [], [])
  | RecvError => (set_connected self false, "", [], [(false, "Connection lost")])
  end.
End EventLoop.

(** What [self.socket.recv(4096)] gives: bytes (none when the peer has
    closed), a timeout, or another exception. *)
Inductive socket_result : Type :=
| SockBytes (raw : list Byte.byte)
| SockTimeout
| SockError.

Section Decoding.
(** [raw.decode('utf-8')]: the text, or [None] where it raises
    UnicodeDecodeError. *)
Variable decode : list Byte.byte -> option string.
Variable iter_order : list string -> list string.

(** [self.socket.recv(4096).decode('utf-8')]: each read is decoded on its
    own, and a read that does not decode is one of the exceptions of the
    last [except]. *)
Definition recv_decode (r : socket_result) : recv_result :=
  match r with
  | SockBytes raw =>
      match decode raw with
      | Some data => RecvData data
      | None => RecvError
      end
  | SockTimeout => RecvTimeout
  | SockError => RecvError
  end.

(** One turn of the loop on a connected object, from what the socket
    gives. *)
Definition loop_turn (self : ami) (buffer : string) (r : socket_result)
    : ami * string * list notification * list (bool * string) :=
  on_recv iter_order self buffer (recv_decode r).
End Decoding.

(** The decoder of the examples, [raw.decode('ascii')]: it agrees with
    [raw.decode('utf-8')] wherever it gives a text, and like it raises on
    a lone byte 0xc3, the first half of a two-byte character. *)
Definition decode_ascii (raw : list Byte.byte) : option string :=
  if forallb (fun b => (Byte.to_N b <? 128)%N) raw
  then Some (string_of_list_byte raw)
  else None.

(** ** The field syntax of the management protocol *)

(** One line "<name>: <value>", as in the login command of [connect]. *)
Definition field_line (field : string * string) : string :=
  fst field +:+ ": " +:+ snd field.

(** Lines joined by ['\r\n']. *)
Fixpoint join_lines (lines : list string) : string :=
  match lines with
  | [] => EmptyString
  | [line] => line
  | line :: rest => line +:+ CRLF +:+ join_lines rest
  end.

(** A frame without its terminator. *)
Definition frame_of (fields : list (string * string)) : string :=
  join_lines (map field_line fields).

(** The record that holds the fields, a later field of one name replacing
    an earlier one. *)
Definition record_of (fields : list (string * string)) : gmap string string :=
  fold_left (fun event field => <[fst field := snd field]> event) fields ∅.

(** The text of a DialBegin frame as it comes off the wire. *)
Definition sample_frame : string :=
  frame_of [("Event", "DialBegin"); ("Channel", "SIP/trunk-00000a1a");
            ("DestChannel", "SIP/1034-00000a1b"); ("CallerIDNum", "0888123456");
            ("Uniqueid", "1700000000.1"); ("Linkedid", "1700000000.1")]
  +:+ frame_end.

(** One line "<name>:<value>", with whatever padding the two parts hold. *)
Definition raw_line (field : string * string) : string :=
  fst field +:+ ":" +:+ snd field.

(** The name and the value as the decoder keeps them. *)
Definition stripped (field : string * string) : string * string :=
  (strip (fst field), strip (snd field)).

(** The decoding of one line into a record ([_process_event], the body of
    its first loop). *)
Definition decode_line (event : gmap string string) (line : string)
    : gmap string string :=
  match partition ":" line with
  | Some (key, value) => <[strip key := strip value]> event
  | None => event
  end.

(** The fields of a frame after [str.strip] has been applied to the frame:
    the first name without its leading blanks, the last value without its
    trailing blanks. *)
Definition lstrip_first (fields : list (string * string)) : list (string * string) :=
  match fields with
  | [] => []
  | (name, value) :: rest => (lstrip name, value) :: rest
  end.

Fixpoint rstrip_last (fields : list (string * string)) : list (string * string) :=
  match fields with
  | [] => []
  | (name, value) :: rest =>
      match rest with
      | [] => [(name, rstrip value)]
      | _ => (name, value) :: rstrip_last rest
      end
  end.

(** ** Version comparison ([UpdateChecker._is_newer]) *)

(** [s.split(sep)] for a one-character separator. *)
Fixpoint split_on (sep : ascii) (s : string) : list string :=
  match s with
  | EmptyString => [EmptyString]
  | String c s' =>
      if Ascii.eqb c sep then EmptyString :: split_on sep s'
      else cons_head c (split_on sep s')
  end.

(** The blanks [int] skips around a literal: tab, line feed, vertical tab,
    form feed, carriage return, space, next-line and no-break space (the
    separators 0x1c..0x1f are not skipped). *)
Definition is_int_space (c : ascii) : bool :=
  let n := nat_of_ascii c in
  ((9 <=? n) && (n <=? 13)) || (n =? 32) || (n =? 133) || (n =? 160).

Fixpoint lstrip_by (p : ascii -> bool) (s : string) : string :=
  match s with
  | EmptyString => EmptyString
  | String c s' => if p c then lstrip_by p s' else s
  end.

Fixpoint rstrip_by (p : ascii -> bool) (s : string) : string :=
  match s with
  | EmptyString => EmptyString
  | String c s' =>
      let r := rstrip_by p s' in
      if p c && String.eqb r "" then EmptyString else String c r
  end.

(** The digits of an integer literal: decimal digits, with single
    underscores allowed between two digits.  [after_digit] tells whether the
    character before was a digit. *)
Fixpoint scan_int (acc : Z) (after_digit : bool) (s : string) : option Z :=
  match s with
  | EmptyString => if after_digit then Some acc else None
  | String c s' =>
      if is_digit c then
        scan_int (acc * 10 + Z.of_nat (nat_of_ascii c - 48))%Z true s'
      else if Ascii.eqb c "_" && after_digit then scan_int acc false s'
      else None
  end.

(** The number of decimal digits of a literal, underscores left out. *)
Fixpoint count_digits (s : string) : nat :=
  match s with
  | EmptyString => 0
  | String c s' => (if is_digit c then 1 else 0) + count_digits s'
  end.

(** [sys.get_int_max_str_digits()], which the program leaves at its default:
    [int] raises ValueError on a literal of more digits (leading zeros
    counted; sign, blanks and underscores not). *)
Definition int_max_str_digits : nat := 4300.

(** The literal after blanks and sign are removed. *)
Definition int_literal (s : string) : option Z :=
  if count_digits s <=? int_max_str_digits then scan_int 0 false s else None.

(** [int(s)] on a string: the integer read, or [None] where [int] raises
    ValueError. *)
Definition py_int (s : string) : option Z :=
  match rstrip_by is_int_space (lstrip_by is_int_space s) with
  | EmptyString => None
  | String c rest =>
      if Ascii.eqb c "+" then int_literal rest
      else if Ascii.eqb c "-" then
        match int_literal rest with
        | Some z => Some (- z)%Z
        | None => None
        end
      else int_literal (String c rest)
  end.

(** [[int(x) for x in parts]]: [None] as soon as one [int] raises. *)
Fixpoint all_ints (parts : list string) : option (list Z) :=
  match parts with
  | [] => Some []
  | x :: rest =>
      match py_int x with
      | None => None
      | Some z =>
          match all_ints rest with
          | None => None
          | Some zs => Some (z :: zs)
          end
      end
  end.

(** [a > b] on two lists of integers: the order of the first place where
    they differ, a proper extension being the greater. *)
Fixpoint list_gt (a b : list Z) : bool :=
  match a, b with
  | [], _ => false
  | _ :: _, [] => true
  | x :: a', y :: b' => if (x =? y)%Z then list_gt a' b' else (y <? x)%Z
  end.

Definition _is_newer (latest current : string) : bool :=
  match all_ints (split_on "." latest) with
  | None => false
  | Some latest_parts =>
      match all_ints (split_on "." current) with
      | None => false
      | Some current_parts => list_gt latest_parts current_parts
      end
  end.

(** Components joined by dots. *)
Fixpoint join_dots (parts : list string) : string :=
  match parts with
  | [] => EmptyString
  | [part] => part
  | part :: rest => part +:+ "." +:+ join_dots rest
  end.

(** [c * n]: the character [c] written [n] times. *)
Fixpoint str_repeat (c : ascii) (n : nat) : string :=
  match n with
  | O => EmptyString
  | S n' => String c (str_repeat c n')
  end.

(** ** Order search ([WooCommerceClient.search_orders_by_phone]) *)

(** What one call [self.wcapi.get("orders", params=...)] gives: it raises,
    or it returns a response with a status code whose [json()] raises
    ([None]) or returns a decoded value. *)
Inductive api_result : Type :=
| ApiRaises
| ApiResponse (status_code : Z) (json_body : option json).

(** Values that can be put in a set: all but lists and dicts. *)
Definition hashable (v : json) : bool :=
  match v with
  | JArr _ | JObj _ => false
  | _ => true
  end.

Fixpoint chars_of (s : string) : list json :=
  match s with
  | EmptyString => []
  | String c s' => JStr (String c EmptyString) :: chars_of s'
  end.

(** What [for order in orders] visits: the items of a list, the keys of a
    dict, the characters of a string; [None] where the value cannot be
    iterated and the loop raises TypeError. *)
Definition iterate (orders : json) : option (list json) :=
  match orders with
  | JArr items => Some items
  | JObj members => Some (map (fun m => JStr (fst m)) members)
  | JStr s => Some (chars_of s)
  | _ => None
  end.

(** The billing phone of an order as the search reads it:
    [order.get('billing', {}).get('phone', '')], when that is a string. *)
Definition billing_phone_of (order : json) : option string :=
  match order with
  | JObj members =>
      match default (JObj []) (obj_get members "billing") with
      | JObj billing =>
          match default (JStr "") (obj_get billing "phone") with
          | JStr billing_phone => Some billing_phone
          | _ => None
          end
      | _ => None
      end
  | _ => None
  end.

(** [order['id']], when the order is a dict that has the key. *)
Definition order_id (order : json) : option json :=
  match order with
  | JObj members => obj_get members "id"
  | _ => None
  end.

(** The search terms tried, in order. *)
Definition search_variants (phone : string) : list string :=
  let normalized_phone := normalize_phone phone in
  [phone]
  ++ (if negb (String.eqb normalized_phone phone) then [normalized_phone] else [])
  ++ (if String.length normalized_phone =? 9
      then ["+359" +:+ normalized_phone; "359" +:+ normalized_phone;
            "0" +:+ normalized_phone]
      else []).

Section OrderSearch.
(** The shop behind [self.wcapi], as a function of the search term. *)
Variable wcapi_get : string -> api_result.
(** [x == y] as the set [seen_ids] applies it to two hashable values. *)
Variable same_id : json -> json -> bool.

(** One turn of [for order in orders] on the pair
    [(matching_orders, seen_ids)]; [None] when the turn raises. *)
Definition examine_order (normalized_phone : string)
    (st : list json * list json) (order : json) : option (list json * list json) :=
  match order with
  | JObj members =>
      match obj_get members "id" with
      | None => None
      | Some id =>
          if negb (hashable id) then None
          else if existsb (same_id id) (snd st) then Some st
          else
            match default (JObj []) (obj_get members "billing") with
            | JObj billing =>
                match default (JStr "") (obj_get billing "phone") with
                | JStr billing_phone =>
                    let billing_normalized := normalize_phone billing_phone in
                    if _phone_matches normalized_phone billing_normalized
                    then Some (fst st ++ [order], snd st ++ [id])
                    else Some st
                | _ => None
                end
            | _ => None
            end
      end
  | _ => None
  end.

Fixpoint examine_orders (normalized_phone : string)
    (st : list json * list json) (orders : list json)
    : option (list json * list json) :=
  match orders with
  | [] => Some st
  | order :: rest =>
      match examine_order normalized_phone st order with
      | Some st' => examine_orders normalized_phone st' rest
      | None => None
      end
  end.

(** One turn of [for search_term in search_variants]. *)
Definition search_one (normalized_phone : string)
    (st : list json * list json) (search_term : string)
    : option (list json * list json) :=
  match wcapi_get search_term with
  | ApiRaises => None
  | ApiResponse status_code json_body =>
      if (status_code =? 200)%Z then
        match json_body with
        | None => None
        | Some orders =>
            match iterate orders with
            | None => None
            | Some items => examine_orders normalized_phone st items
            end
        end
      else Some st
  end.

Fixpoint search_all (normalized_phone : string)
    (st : list json * list json) (terms : list string)
    : option (list json * list json) :=
  match terms with
  | [] => Some st
  | term :: rest =>
      match search_one normalized_phone st term with
      | Some st' => search_all normalized_phone st' rest
      | None => None
      end
  end.

(** The orders returned; the empty list when anything raised. *)
Definition search_orders_by_phone (phone : string) : list json :=
  let normalized_phone := normalize_phone phone in
  match search_all normalized_phone ([], []) (search_variants phone) with
  | Some (matching_orders, _) => matching_orders
  | None => []
  end.
End OrderSearch.

(** Two sample orders and a shop that answers every search with them. *)
Definition sample_order (id : Z) (billing_phone : string) : json :=
  JObj [("id", JInt id); ("number", JStr "MP7993AX");
        ("billing", JObj [("first_name", JStr "Ivan"); ("phone", JStr billing_phone)])].

Definition sample_shop (term : string) : api_result :=
  ApiResponse 200
    (Some (JArr [sample_order 7993 "+359 888 123 456"; sample_order 8001 "0887 000 111"])).

(** Equality of identifiers that are integers or strings. *)
Definition plain_id_eqb (a b : json) : bool :=
  match a, b with
  | JInt x, JInt y => (x =? y)%Z
  | JStr x, JStr y => String.eqb x y
  | _, _ => false
  end.

(** What holds of the pair [(matching_orders, seen_ids)] all along a search
    for the normal form [normalized_phone]: every order kept satisfies [Q]
    and has a billing phone that matches, [seen_ids] lists the identifiers
    of the orders kept, and no identifier equals one listed before it. *)
Definition search_invariant (same_id : json -> json -> bool) (Q : json -> Prop)
    (normalized_phone : string) (st : list json * list json) : Prop :=
  Forall (fun order =>
            Q order
            /\ exists billing_phone,
                 billing_phone_of order = Some billing_phone
                 /\ _phone_matches normalized_phone (normalize_phone billing_phone)
                    = true)
         (fst st)
  /\ Forall2 (fun order id => order_id order = Some id) (fst st) (snd st)
  /\ forall earlier id later,
       snd st = earlier ++ id :: later -> existsb (same_id id) earlier = false.
(** * Properties *)

(** ** Strings *)

Section StringFacts.
Implicit Types s p r : string.

Lemma app_nil_l s : "" +:+ s = s.
Proof. reflexivity. Qed.

Lemma app_cons c s p : String c s +:+ p = String c (s +:+ p).
Proof. reflexivity. Qed.

Lemma app_assoc s p r : (s +:+ p) +:+ r = s +:+ (p +:+ r).
Proof.
  induction s as [|c s IH]; [reflexivity|].
  by rewrite !app_cons, IH.
Qed.

Lemma app_length s p :
  String.length (s +:+ p) = String.length s + String.length p.
Proof.
  induction s as [|c s IH]; [reflexivity|].
  rewrite app_cons. cbn. by rewrite IH.
Qed.

Lemma length_zero_empty s : String.length s = 0 -> s = "".
Proof. by destruct s. Qed.

Lemma eqb_empty_false s : String.eqb s "" = false <-> s <> "".
Proof. apply String.eqb_neq. Qed.

Lemma startswith_app p r : startswith (p +:+ r) p = true.
Proof.
  induction p as [|c p IH]; [reflexivity|].
  rewrite app_cons. cbn. by rewrite Ascii.eqb_refl, IH.
Qed.

Lemma str_drop_app p r : str_drop (String.length p) (p +:+ r) = r.
Proof. induction p as [|c p IH]; [reflexivity|]. exact IH. Qed.

Lemma str_drop_length n s :
  String.length (str_drop n s) = String.length s - n.
Proof.
  revert s. induction n as [|n IH]; intros s; cbn; [lia|].
  destruct s as [|c s]; cbn; [reflexivity|]. apply IH.
Qed.

(** A string that starts with [p] is [p] followed by the rest. *)
Lemma startswith_inv s p :
  startswith s p = true -> s = p +:+ str_drop (String.length p) s.
Proof.
  revert s. induction p as [|c p IH]; intros s H; [reflexivity|].
  destruct s as [|d s]; cbn in H; [discriminate|].
  apply andb_true_iff in H as [Hc Hp].
  apply Ascii.eqb_eq in Hc. subst d.
  rewrite app_cons. cbn. f_equal. by apply IH.
Qed.

Lemma startswith_spec s p :
  startswith s p = true <-> exists r, s = p +:+ r.
Proof.
  split.
  - intros H. eexists. by apply startswith_inv.
  - intros [r ->]. apply startswith_app.
Qed.

(** [str_in] decides the substring relation. *)
Lemma str_in_spec needle hay :
  str_in needle hay = true <-> is_substring needle hay.
Proof.
  unfold is_substring. induction hay as [|c hay IH]; cbn [str_in].
  - rewrite orb_false_r, startswith_spec. split.
    + intros [r ->]. by exists "", r.
    + intros (l & r & H). destruct l as [|d l]; [|discriminate].
      by exists r.
  - rewrite orb_true_iff, startswith_spec, IH. split.
    + intros [[r ->]|(l & r & ->)].
      * by exists "", r.
      * by exists (String c l), r.
    + intros (l & r & H). destruct l as [|d l].
      * left. by exists r.
      * right. rewrite app_cons in H. injection H as -> ->. by exists l, r.
Qed.

Lemma substring_drop n s :
  String.substring n (String.length s - n) s = str_drop n s.
Proof.
  revert s. induction n as [|n IH]; intros s.
  - rewrite Nat.sub_0_r. cbn [str_drop].
    induction s as [|c s IHs]; [reflexivity|]. cbn. by rewrite IHs.
  - destruct s as [|c s]; [reflexivity|]. cbn. apply IH.
Qed.

Lemma substring_last n s :
  n <= String.length s ->
  String.substring (String.length s - n) n s = str_last n s.
Proof.
  intros H. unfold str_last. rewrite <- substring_drop. f_equal. lia.
Qed.

Lemma str_drop_split k s :
  k <= String.length s ->
  exists pre, s = pre +:+ str_drop k s /\ String.length pre = k.
Proof.
  revert s. induction k as [|k IH]; intros s H.
  - by exists "".
  - destruct s as [|c s]; cbn in H; [lia|].
    destruct (IH s) as (pre & Hs & Hl); [lia|].
    exists (String c pre). rewrite app_cons. cbn. split; [by f_equal|lia].
Qed.

(** The last [n] characters of a string that has at least [n]. *)
Lemma str_last_split n s :
  n <= String.length s ->
  exists pre, s = pre +:+ str_last n s /\ String.length (str_last n s) = n.
Proof.
  intros H. unfold str_last.
  destruct (str_drop_split (String.length s - n) s) as (pre & Hs & Hl); [lia|].
  exists pre. split; [exact Hs|]. rewrite str_drop_length. lia.
Qed.

(** A suffix of length [n] is the last [n] characters. *)
Lemma str_last_app pre suffix :
  str_last (String.length suffix) (pre +:+ suffix) = suffix.
Proof.
  unfold str_last. rewrite app_length.
  replace (String.length pre + String.length suffix - String.length suffix)
    with (String.length pre) by lia.
  apply str_drop_app.
Qed.

Lemma str_last_whole n s : String.length s <= n -> str_last n s = s.
Proof.
  intros H. unfold str_last.
  by replace (String.length s - n) with 0 by lia.
Qed.

Lemma last9_equal_spec a b :
  (9 <=? String.length a) && (9 <=? String.length b)
    && String.eqb (str_last 9 a) (str_last 9 b) = true
  <-> last9_equal a b.
Proof.
  rewrite !andb_true_iff, !Nat.leb_le, String.eqb_eq. split.
  - intros [[Ha Hb] Heq].
    destruct (str_last_split 9 a Ha) as (pa & Hpa & Hla).
    destruct (str_last_split 9 b Hb) as (pb & Hpb & _).
    exists pa, pb, (str_last 9 a). split_and!; [done| |done].
    by rewrite Heq at 1.
  - intros (pa & pb & suffix & -> & -> & Hl).
    rewrite !app_length, Hl. split; [lia|].
    rewrite <- Hl. by rewrite !str_last_app.
Qed.

Lemma lstrip_zeros_id s : startswith s "0" = false -> lstrip_zeros s = s.
Proof.
  destruct s as [|c s]; [reflexivity|]. cbn [startswith lstrip_zeros].
  rewrite andb_true_r, Ascii.eqb_sym. by intros ->.
Qed.
End StringFacts.

(** ** Phone normalizer and matcher *)

Section Phone.
Implicit Types a b raw digits : string.

(** The comparison of [_phone_matches] as one boolean expression. *)
Lemma _phone_matches_bool a b :
  _phone_matches a b =
  negb (String.eqb a "" || String.eqb b "")
  && (str_in a b || str_in b a
      || ((9 <=? String.length a) && (9 <=? String.length b)
          && String.eqb (str_last 9 a) (str_last 9 b))).
Proof.
  unfold _phone_matches.
  destruct (String.eqb a "" || String.eqb b ""); [reflexivity|].
  destruct (str_in a b || str_in b a); [reflexivity|].
  destruct ((9 <=? String.length a) && (9 <=? String.length b));
    [|reflexivity].
  by destruct (String.eqb (str_last 9 a) (str_last 9 b)).
Qed.

(** Both matchers run one comparison, each on its own normalization. *)
Lemma _numbers_match_core a b :
  _numbers_match a b =
  _phone_matches (_normalize_number a) (_normalize_number b).
Proof.
  rewrite _phone_matches_bool. unfold _numbers_match.
  by destruct (String.eqb (_normalize_number a) ""
               || String.eqb (_normalize_number b) "").
Qed.

Lemma _phone_matches_sym a b : _phone_matches a b = _phone_matches b a.
Proof.
  rewrite !_phone_matches_bool.
  rewrite (orb_comm (String.eqb a "")), (orb_comm (str_in a b)).
  rewrite (andb_comm (9 <=? String.length a)).
  by rewrite (String.eqb_sym (str_last 9 a)).
Qed.

Lemma _phone_matches_spec a b :
  _phone_matches a b = true <->
  a <> "" /\ b <> "" /\ spec_match_cond a b.
Proof.
  rewrite _phone_matches_bool, andb_true_iff, negb_true_iff, orb_false_iff.
  rewrite !String.eqb_neq, !orb_true_iff, !str_in_spec, last9_equal_spec.
  unfold spec_match_cond. tauto.
Qed.

(** The prefix loop strips the first listed prefix the digits start with,
    and only when the digits number more than ten. *)
Lemma strip_country_prefix_find prefixes digits :
  strip_country_prefix prefixes digits =
  match find (fun p => startswith digits p) prefixes with
  | Some p =>
      if 10 <? String.length digits
      then str_drop (String.length p) digits else digits
  | None => digits
  end.
Proof.
  induction prefixes as [|p ps IH]; [reflexivity|].
  cbn [strip_country_prefix find].
  destruct (startswith digits p); cbn [andb]; [|exact IH].
  destruct (10 <? String.length digits); [reflexivity|].
  rewrite IH. by destruct (find _ ps).
Qed.

Lemma spec_strip_zeros_drop digits :
  spec_strip_zeros digits =
  if startswith digits "00" then str_drop 2 digits
  else if startswith digits "0" then str_drop 1 digits
  else digits.
Proof. unfold spec_strip_zeros. by rewrite !substring_drop. Qed.

Lemma spec_last10_last digits :
  spec_last10 digits =
  if 10 <=? String.length digits then str_last 10 digits else digits.
Proof.
  unfold spec_last10.
  destruct (10 <=? String.length digits) eqn:H; [|reflexivity].
  apply substring_last. by apply Nat.leb_le.
Qed.

Lemma normalize_phone_amended raw : normalize_phone raw = normalize_amended raw.
Proof.
  unfold normalize_phone, normalize_amended.
  destruct (10 <? String.length (strip_non_digits raw));
    rewrite spec_last10_last; [|reflexivity].
  rewrite strip_country_prefix_find, spec_strip_zeros_drop.
  unfold amended_strip_prefix.
  by destruct (find _ country_prefixes); rewrite ?substring_drop.
Qed.

(** At most ten digits: the normal form is the digit string itself. *)
Lemma normalize_phone_short raw :
  String.length (strip_non_digits raw) <= 10 ->
  normalize_phone raw = strip_non_digits raw.
Proof.
  intros H. unfold normalize_phone.
  replace (10 <? String.length (strip_non_digits raw)) with false
    by (symmetry; apply Nat.ltb_ge; lia).
  destruct (10 <=? String.length (strip_non_digits raw)); [|reflexivity].
  by apply str_last_whole.
Qed.

Lemma lookup_match_sym a b : lookup_match a b = lookup_match b a.
Proof. apply _phone_matches_sym. Qed.

Lemma _numbers_match_sym a b : _numbers_match a b = _numbers_match b a.
Proof. rewrite !_numbers_match_core. apply _phone_matches_sym. Qed.
End Phone.

(** C1, as stated: [normalize("0888123456")] is claimed to be ["888123456"];
    the code returns the ten digits with their leading zero. *)
Lemma local_number_keeps_zero :
  normalize_phone "0888123456" <> "888123456".
Proof. vm_compute. discriminate. Qed.

(** C1, amended: [normalize("0888123456")] returns ["0888123456"]: the digit
    string has exactly ten digits, so neither a leading zero nor a prefix is
    removed, and its last ten digits are the whole string. *)
Theorem normalize_local_number : normalize_phone "0888123456" = "0888123456".
Proof. apply normalize_phone_short. vm_compute. lia. Qed.

(** C2, as stated: on ["+359888123456"] the procedure that strips only a
    prefix leaving more than ten digits keeps the prefix and returns the last
    ten digits, where the code strips "359". *)
Lemma normalize_spec_differs :
  10 < String.length (strip_non_digits "+359888123456")
  /\ normalize_spec "+359888123456" = "9888123456"
  /\ normalize_phone "+359888123456" = "888123456"
  /\ normalize_phone "+359888123456" <> normalize_spec "+359888123456".
Proof. vm_compute. split_and!; try reflexivity; [lia|discriminate]. Qed.

(** C2, amended: for every raw input whose digit string has more than ten
    digits, [normalize_phone] removes a leading "00" (else a single leading
    "0"), then, if more than ten digits are still there, strips the first
    prefix of the list, in its order, that the digits start with (whatever
    number of digits that leaves), and returns the last ten digits if at
    least ten remain, otherwise all of them; and
    [normalize("+359888123456") = "888123456"]. *)
Theorem normalize_long_number raw :
  10 < String.length (strip_non_digits raw) ->
  normalize_phone raw = normalize_amended raw
  /\ normalize_phone "+359888123456" = "888123456".
Proof. intros _. split; [apply normalize_phone_amended|reflexivity]. Qed.

Lemma normalize_long_number_witness :
  10 < String.length (strip_non_digits "+359888123456")
  /\ normalize_phone "+359888123456" = normalize_amended "+359888123456".
Proof.
  split; [vm_compute; lia|].
  apply (normalize_long_number "+359888123456"). vm_compute. lia.
Defined.

(** C3, as stated: the empty string is a substring of every string, so the
    stated condition holds of [""] and ["888123456"], yet the match is
    false. *)
Lemma match_empty_breaks_iff :
  ~ (lookup_match "" "888123456" = true
     <-> spec_match_cond (normalize_phone "") (normalize_phone "888123456")).
Proof.
  intros [_ H].
  assert (Hc : spec_match_cond (normalize_phone "") (normalize_phone "888123456")).
  { left. by exists "", "888123456". }
  specialize (H Hc). vm_compute in H. discriminate.
Qed.

(** C3, amended: [match(a, b)] normalizes both inputs and is true if and
    only if both normalized values are non-empty and either one is a
    substring of the other or both have at least nine digits and the same
    last nine; [match("0888123456", "+359888123456")] is true and
    [match("", "888123456")] is false. *)
Theorem lookup_match_spec :
  (forall a b,
     lookup_match a b = true <->
     normalize_phone a <> "" /\ normalize_phone b <> ""
     /\ spec_match_cond (normalize_phone a) (normalize_phone b))
  /\ lookup_match "0888123456" "+359888123456" = true
  /\ lookup_match "" "888123456" = false.
Proof.
  split_and!; [|reflexivity..].
  intros a b. apply _phone_matches_spec.
Qed.

(** C4, as stated: the two matchers disagree, for instance on
    ["1234567890"] against ["01234"] and on ["0"] against itself. *)
Lemma matchers_differ :
  _numbers_match "1234567890" "01234" <> lookup_match "1234567890" "01234"
  /\ _numbers_match "0" "0" <> lookup_match "0" "0".
Proof. vm_compute. split; discriminate. Qed.

(** C4, amended: the two matchers apply one comparison (both operands
    non-empty, then mutual containment or equal last nine digits) to their
    own normal forms, [_normalize_number] on the AMI side and
    [normalize_phone] on the lookup side; they return the same boolean on
    every pair of inputs whose digit strings have at most ten digits and no
    leading zero. *)
Theorem matchers_agree_on_short a b :
  String.length (strip_non_digits a) <= 10 ->
  String.length (strip_non_digits b) <= 10 ->
  startswith (strip_non_digits a) "0" = false ->
  startswith (strip_non_digits b) "0" = false ->
  _numbers_match a b = _phone_matches (_normalize_number a) (_normalize_number b)
  /\ lookup_match a b = _phone_matches (normalize_phone a) (normalize_phone b)
  /\ _numbers_match a b = lookup_match a b.
Proof.
  intros Ha Hb Za Zb. split_and!; [apply _numbers_match_core|reflexivity|].
  rewrite _numbers_match_core. unfold lookup_match, _normalize_number.
  by rewrite !normalize_phone_short, !lstrip_zeros_id.
Qed.

Lemma matchers_agree_on_short_witness :
  _numbers_match "888-123-456" "(888) 123 456" = lookup_match "888-123-456" "(888) 123 456".
Proof.
  apply (matchers_agree_on_short "888-123-456" "(888) 123 456");
    vm_compute; first [lia | reflexivity].
Defined.

(** C10: both matchers are symmetric in their two arguments. *)
Theorem matchers_symmetric :
  (forall a b, lookup_match a b = lookup_match b a)
  /\ (forall a b, _numbers_match a b = _numbers_match b a).
Proof. split; [apply lookup_match_sym|apply _numbers_match_sym]. Qed.

(** ** Webhook listener *)

Section WebhookFacts.
Variable loads : string -> exn + json.
Variable req : request.
Hypothesis Hpath : req_path req = "/incoming-call".

Lemma do_POST_raises e :
  loads (req_body req) = inl e ->
  do_POST loads req = ({| resp_status := 500; resp_body := ErrorBody e |}, []).
Proof. intros H. unfold do_POST. by rewrite Hpath, String.eqb_refl, H. Qed.

Lemma do_POST_phone members p :
  loads (req_body req) = inr (JObj members) ->
  obj_get members "phone" = Some (JStr p) ->
  p <> "" ->
  do_POST loads req =
  ({| resp_status := 200; resp_body := JsonBody status_ok |},
   [{| n_phone := p; n_metadata := android_source |}]).
Proof.
  intros H Hget Hp. unfold do_POST.
  rewrite Hpath, String.eqb_refl, H, Hget.
  cbn -[String.eqb].
  apply String.eqb_neq in Hp. by rewrite Hp.
Qed.

Lemma do_POST_no_phone members :
  loads (req_body req) = inr (JObj members) ->
  obj_get members "phone" = None \/ obj_get members "phone" = Some (JStr "") ->
  do_POST loads req =
  ({| resp_status := 400; resp_body := JsonBody phone_required |}, []).
Proof.
  intros H Hget. unfold do_POST. rewrite Hpath, String.eqb_refl, H.
  by destruct Hget as [-> | ->].
Qed.
End WebhookFacts.

(** C5, as stated: a request with an empty body is claimed to be answered
    with 400; [json.loads] raises on the empty string and the handler
    answers 500. *)
Lemma empty_body_is_500 :
  json_loads "" = inl JSONDecodeError
  /\ do_POST json_loads (incoming_call "")
     = ({| resp_status := 500; resp_body := ErrorBody JSONDecodeError |}, [])
  /\ resp_status (fst (do_POST json_loads (incoming_call ""))) <> 400%Z.
Proof. vm_compute. split_and!; [reflexivity..|discriminate]. Qed.

(** C5, amended: for every POST /incoming-call request: if the body decodes
    to an object whose "phone" is a non-empty string, the answer is 200
    [{"status": "ok"}] and exactly one Notification is emitted, its phone
    the received string as it is; if the body decodes to an object whose
    "phone" is missing or the empty string, the answer is 400
    [{"error": "phone required"}] and no Notification is emitted; if
    decoding the body raises, as it does on an empty body, the answer is
    500 with the message of the exception and no Notification is emitted. *)
Theorem incoming_call_responses (loads : string -> exn + json) (req : request) :
  req_path req = "/incoming-call" ->
  (forall members p,
     loads (req_body req) = inr (JObj members) ->
     obj_get members "phone" = Some (JStr p) -> p <> "" ->
     do_POST loads req =
     ({| resp_status := 200; resp_body := JsonBody status_ok |},
      [{| n_phone := p; n_metadata := android_source |}]))
  /\ (forall members,
        loads (req_body req) = inr (JObj members) ->
        obj_get members "phone" = None \/ obj_get members "phone" = Some (JStr "") ->
        do_POST loads req =
        ({| resp_status := 400; resp_body := JsonBody phone_required |}, []))
  /\ (forall e,
        loads (req_body req) = inl e ->
        do_POST loads req =
        ({| resp_status := 500; resp_body := ErrorBody e |}, []))
  /\ json_loads "" = inl JSONDecodeError.
Proof.
  intros Hpath. split_and!.
  - intros members p. by apply do_POST_phone.
  - intros members. by apply do_POST_no_phone.
  - intros e. by apply do_POST_raises.
  - reflexivity.
Qed.

Lemma incoming_call_responses_witness :
  req_path (incoming_call (body_with_phone "+359888000000")) = "/incoming-call"
  /\ json_loads (body_with_phone "+359888000000")
     = inr (JObj [("phone", JStr "+359888000000")])
  /\ do_POST json_loads (incoming_call (body_with_phone "+359888000000"))
     = ({| resp_status := 200; resp_body := JsonBody status_ok |},
        [{| n_phone := "+359888000000"; n_metadata := android_source |}])
  /\ do_POST json_loads (incoming_call "{}")
     = ({| resp_status := 400; resp_body := JsonBody phone_required |}, [])
  /\ do_POST json_loads (incoming_call "")
     = ({| resp_status := 500; resp_body := ErrorBody JSONDecodeError |}, []).
Proof.
  split_and!.
  - reflexivity.
  - vm_compute. reflexivity.
  - apply (proj1 (incoming_call_responses json_loads
                    (incoming_call (body_with_phone "+359888000000")) eq_refl)
             [("phone", JStr "+359888000000")] "+359888000000").
    + vm_compute. reflexivity.
    + reflexivity.
    + discriminate.
  - apply (proj1 (proj2 (incoming_call_responses json_loads
                           (incoming_call "{}") eq_refl)) []).
    + vm_compute. reflexivity.
    + by left.
  - apply (proj1 (proj2 (proj2 (incoming_call_responses json_loads
                                   (incoming_call "") eq_refl))) JSONDecodeError).
    vm_compute. reflexivity.
Defined.

(** ** Call correlator *)

Section CorrelatorFacts.
Implicit Types (self : ami) (event : gmap string string).
Implicit Types (st : option string * bool) (c v key : string).

Lemma real_caller_placeholder v : In v placeholders -> real_caller v = None.
Proof.
  intros H. cbn in H.
  destruct H as [<-|[<-|[<-|[<-|[]]]]]; reflexivity.
Qed.

Lemma real_caller_Some v c :
  real_caller v = Some c -> c = v /\ ~ In c placeholders.
Proof.
  unfold real_caller.
  destruct (str_truthy v); cbn [andb]; [|discriminate].
  destruct (existsb (String.eqb v) placeholders) eqn:He; cbn [negb];
    [discriminate|].
  intros [= <-]. split; [reflexivity|]. intros Hin.
  assert (existsb (String.eqb v) placeholders = true) as Ht; [|congruence].
  apply existsb_exists. exists v. split; [exact Hin|apply String.eqb_refl].
Qed.

(** A caller a method leaves behind is either the one it was given or a
    value that passed [real_caller]. *)
Lemma method_dial_begin_caller self event st c :
  fst (method_dial_begin self event st) = Some c ->
  fst st = Some c \/ ~ In c placeholders.
Proof.
  unfold method_dial_begin.
  repeat match goal with |- context [if ?b then _ else _] => destruct b end;
    cbn [fst]; intros H; auto; right; by apply real_caller_Some in H as [_ ?].
Qed.

Lemma method_dial_state_caller self event st c :
  fst (method_dial_state self event st) = Some c ->
  fst st = Some c \/ ~ In c placeholders.
Proof.
  unfold method_dial_state.
  repeat match goal with |- context [if ?b then _ else _] => destruct b end;
    cbn [fst]; intros H; auto; right; by apply real_caller_Some in H as [_ ?].
Qed.

Lemma method_newstate_caller self event st c :
  fst (method_newstate self event st) = Some c ->
  fst st = Some c \/ ~ In c placeholders.
Proof.
  unfold method_newstate.
  repeat match goal with |- context [if ?b then _ else _] => destruct b end;
    cbn [fst]; intros H; auto; right; by apply real_caller_Some in H as [_ ?].
Qed.

Lemma correlate_caller self event c m :
  correlate self event = (Some c, m) -> ~ In c placeholders.
Proof.
  unfold correlate. intros H.
  assert (Hc : fst (method_newstate self event
                      (method_dial_state self event
                         (method_dial_begin self event (None, false))))
               = Some c) by (by rewrite H).
  apply method_newstate_caller in Hc as [Hc|]; [|done].
  apply method_dial_state_caller in Hc as [Hc|]; [|done].
  apply method_dial_begin_caller in Hc as [Hc|]; [|done].
  discriminate.
Qed.

Lemma method_dial_begin_placeholder self event :
  In (event_get event "CallerIDNum" "") placeholders ->
  method_dial_begin self event (None, false) = (None, false).
Proof.
  intros H. unfold method_dial_begin. rewrite (real_caller_placeholder _ H).
  cbn [opt_truthy snd].
  by repeat match goal with |- context [if ?b then _ else _] => destruct b end.
Qed.

Lemma method_dial_state_placeholder self event :
  In (event_get event "CallerIDNum" "") placeholders ->
  method_dial_state self event (None, false) = (None, false).
Proof.
  intros H. unfold method_dial_state. rewrite (real_caller_placeholder _ H).
  cbn [opt_truthy snd].
  by repeat match goal with |- context [if ?b then _ else _] => destruct b end.
Qed.

Lemma method_newstate_placeholder self event :
  In (event_get event "ConnectedLineNum" "") placeholders ->
  In (event_get event "CallerIDNum" "") placeholders ->
  method_newstate self event (None, false) = (None, false).
Proof.
  intros H1 H2. unfold method_newstate.
  rewrite (real_caller_placeholder _ H1). cbn [opt_truthy negb].
  rewrite (real_caller_placeholder _ H2). cbn [opt_truthy snd].
  by repeat match goal with |- context [if ?b then _ else _] => destruct b end.
Qed.

(** The methods read nothing of the object but the watched channel. *)
Lemma correlate_watch self self' event :
  watch_channel self = watch_channel self' ->
  correlate self event = correlate self' event.
Proof.
  intros H.
  unfold correlate, method_newstate, method_dial_state, method_dial_begin.
  by rewrite H.
Qed.

Lemma existsb_eqb_In key (calls : list string) :
  existsb (String.eqb key) calls = true <-> In key calls.
Proof.
  rewrite existsb_exists. split.
  - intros (x & Hx & He). apply String.eqb_eq in He. by subst.
  - intros H. exists key. split; [done|apply String.eqb_refl].
Qed.

Lemma list_last_length {A} n (l : list A) : length (list_last n l) <= n.
Proof. unfold list_last. rewrite length_skipn. lia. Qed.

Variable iter_order : list string -> list string.

Lemma process_record_unmatched self event :
  correlate self event = (None, false) ->
  process_record iter_order self event = (self, []).
Proof. intros H. unfold process_record. by rewrite H. Qed.

(** Whatever is emitted carries the caller the methods settled on. *)
Lemma process_record_phone self event n :
  In n (snd (process_record iter_order self event)) ->
  exists m, correlate self event = (Some (n_phone n), m).
Proof.
  unfold process_record.
  destruct (correlate self event) as [[c|] m]; cbn [snd].
  - repeat match goal with |- context [if ?b then _ else _] => destruct b end;
      cbn [snd In]; try tauto; intros [<-|[]]; by exists m.
  - by destruct (m && _).
Qed.

Lemma process_record_watch self event :
  watch_channel (fst (process_record iter_order self event)) = watch_channel self.
Proof.
  unfold process_record.
  destruct (correlate self event) as [[c|] m];
    by repeat match goal with |- context [if ?b then _ else _] => destruct b end.
Qed.

Lemma process_records_watch self events :
  watch_channel (fst (process_records iter_order self events)) = watch_channel self.
Proof.
  revert self. induction events as [|e events IH]; intros self; [reflexivity|].
  cbn [process_records].
  pose proof (process_record_watch self e) as H1.
  destruct (process_record iter_order self e) as [self1 out1].
  pose proof (IH self1) as H2.
  destruct (process_records iter_order self1 events) as [self2 out2].
  cbn [fst] in *. congruence.
Qed.

(** A matched record whose key is new is inserted and emitted; below the
    capacity nothing is trimmed. *)
Lemma process_record_fresh self event c :
  correlate self event = (Some c, true) ->
  ~ In (call_key event c) (_processed_calls self) ->
  length (_processed_calls self) < 200 ->
  process_record iter_order self event =
  (set_processed_calls self (_processed_calls self ++ [call_key event c]),
   [{| n_phone := c; n_metadata := event |}]).
Proof.
  intros Hc Hnew Hlen. unfold process_record. rewrite Hc.
  assert (Hne : c <> "").
  { intros ->. apply (correlate_caller _ _ _ _ Hc). cbn. auto. }
  apply String.eqb_neq in Hne. cbn [andb opt_truthy]. unfold str_truthy.
  rewrite Hne. cbn [negb].
  destruct (existsb (String.eqb (call_key event c)) (_processed_calls self)) eqn:He.
  { apply existsb_eqb_In in He. contradiction. }
  cbn [negb]. rewrite length_app. cbn [length].
  replace (200 <? length (_processed_calls self) + 1) with false;
    [reflexivity|].
  symmetry. apply Nat.ltb_ge. lia.
Qed.

(** A matched record whose key is in the cache is suppressed. *)
Lemma process_record_seen self event c :
  correlate self event = (Some c, true) ->
  In (call_key event c) (_processed_calls self) ->
  process_record iter_order self event = (self, []).
Proof.
  intros Hc Hin. unfold process_record. rewrite Hc.
  apply existsb_eqb_In in Hin. rewrite Hin. cbn [negb].
  by destruct (true && opt_truthy (Some c)).
Qed.

(** Below the capacity the cache only grows, by at most one key a record. *)
Lemma process_record_small self event :
  length (_processed_calls self) < 200 ->
  (forall key, In key (_processed_calls self) ->
               In key (_processed_calls (fst (process_record iter_order self event))))
  /\ length (_processed_calls (fst (process_record iter_order self event)))
     <= S (length (_processed_calls self)).
Proof.
  intros Hlen. unfold process_record.
  destruct (correlate self event) as [[c|] m];
    repeat match goal with |- context [if ?b then _ else _] => destruct b eqn:? end;
    cbn [fst set_processed_calls _processed_calls];
    try (split; [auto|lia]).
  - rewrite length_app in *. cbn [length] in *.
    match goal with H : (200 <? _) = true |- _ => apply Nat.ltb_lt in H end. lia.
  - rewrite length_app. cbn [length]. split; [|lia].
    intros key Hk. apply in_or_app. by left.
Qed.

Lemma process_records_small self events :
  length (_processed_calls self) + length events <= 200 ->
  (forall key, In key (_processed_calls self) ->
               In key (_processed_calls (fst (process_records iter_order self events))))
  /\ length (_processed_calls (fst (process_records iter_order self events)))
     <= length (_processed_calls self) + length events.
Proof.
  revert self. induction events as [|e events IH]; intros self Hlen.
  - cbn. split; [auto|lia].
  - cbn [process_records length] in *.
    destruct (process_record_small self e) as [Hk1 Hl1]; [lia|].
    destruct (process_record iter_order self e) as [self1 out1].
    cbn [fst] in Hk1, Hl1.
    destruct (IH self1) as [Hk2 Hl2]; [lia|].
    destruct (process_records iter_order self1 events) as [self2 out2].
    cbn [fst] in *. split; [auto|lia].
Qed.

(** A matched record whose key is new is emitted, whatever the size of the
    cache. *)
Lemma process_record_new_emits self event c :
  correlate self event = (Some c, true) ->
  ~ In (call_key event c) (_processed_calls self) ->
  snd (process_record iter_order self event)
  = [{| n_phone := c; n_metadata := event |}].
Proof.
  intros Hc Hnew. unfold process_record. rewrite Hc.
  assert (Hne : c <> "").
  { intros ->. apply (correlate_caller _ _ _ _ Hc). cbn. auto. }
  apply String.eqb_neq in Hne. cbn [andb opt_truthy]. unfold str_truthy.
  rewrite Hne. cbn [negb].
  destruct (existsb (String.eqb (call_key event c)) (_processed_calls self)) eqn:He.
  { apply existsb_eqb_In in He. contradiction. }
  reflexivity.
Qed.

(** A record at which the cache stays within its capacity removes no key. *)
Lemma process_record_keeps self event :
  length (_processed_calls self)
  + length (snd (process_record iter_order self event)) <= 200 ->
  forall key, In key (_processed_calls self) ->
              In key (_processed_calls (fst (process_record iter_order self event))).
Proof.
  unfold process_record.
  destruct (correlate self event) as [[c|] m];
    repeat match goal with |- context [if ?b then _ else _] => destruct b eqn:? end;
    cbn [fst snd set_processed_calls _processed_calls length]; intros Hlen;
    try (intros key Hk; exact Hk).
  - rewrite length_app in *. cbn [length] in *.
    match goal with H : (200 <? _) = true |- _ => apply Nat.ltb_lt in H end. lia.
  - intros key Hk. apply in_or_app. by left.
Qed.

Lemma within_capacity_keeps self events :
  within_capacity iter_order self events = true ->
  forall key, In key (_processed_calls self) ->
              In key (_processed_calls (fst (process_records iter_order self events))).
Proof.
  revert self. induction events as [|e events IH]; intros self; [by cbn|].
  cbn [within_capacity process_records].
  pose proof (process_record_keeps self e) as Hk1.
  destruct (process_record iter_order self e) as [self1 out1].
  cbn [fst snd] in Hk1.
  intros [Hlen Hrest]%andb_true_iff. apply Nat.leb_le in Hlen.
  specialize (IH self1 Hrest).
  destruct (process_records iter_order self1 events) as [self2 out2].
  cbn [fst] in *. auto.
Qed.

(** Fewer records than free places keep the cache within its capacity. *)
Lemma within_capacity_small self events :
  length (_processed_calls self) + length events <= 200 ->
  within_capacity iter_order self events = true.
Proof.
  revert self. induction events as [|e events IH]; intros self Hlen; [done|].
  cbn [within_capacity length] in *.
  destruct (process_record_small self e) as [_ Hl1]; [lia|].
  pose proof (process_record_phone self e) as Hout.
  destruct (process_record iter_order self e) as [self1 out1] eqn:Hstep.
  cbn [fst snd] in *.
  assert (Hone : length out1 <= 1).
  { clear -Hstep. revert Hstep. unfold process_record.
    destruct (correlate self e) as [[c|] m];
      repeat match goal with |- context [if ?b then _ else _] => destruct b end;
      intros [= <- <-]; cbn; lia. }
  apply andb_true_iff. split; [apply Nat.leb_le; lia|]. apply IH. lia.
Qed.

(** The cache never holds more than 200 keys, whatever the enumeration
    order used by the trim. *)
Lemma process_record_bounded self event :
  length (_processed_calls self) <= 200 ->
  length (_processed_calls (fst (process_record iter_order self event))) <= 200.
Proof.
  intros Hlen. unfold process_record.
  destruct (correlate self event) as [[c|] m];
    repeat match goal with |- context [if ?b then _ else _] => destruct b eqn:? end;
    cbn [fst set_processed_calls _processed_calls]; try lia.
  - pose proof (list_last_length 100
                  (iter_order (_processed_calls self ++ [call_key event c]))).
    lia.
  - match goal with H : (200 <? _) = false |- _ => apply Nat.ltb_ge in H end.
    lia.
Qed.

Lemma process_records_bounded self events :
  length (_processed_calls self) <= 200 ->
  length (_processed_calls (fst (process_records iter_order self events))) <= 200.
Proof.
  revert self. induction events as [|e events IH]; intros self Hlen; [exact Hlen|].
  cbn [process_records].
  pose proof (process_record_bounded self e Hlen) as H1.
  destruct (process_record iter_order self e) as [self1 out1].
  pose proof (IH self1 H1) as H2.
  by destruct (process_records iter_order self1 events) as [self2 out2].
Qed.

(** When the enumeration is a permutation of the members, a trim leaves
    exactly 100 keys and they are members of the set before it. *)
Lemma trim_size (calls : list string) :
  Permutation (iter_order calls) calls ->
  200 < length calls ->
  length (list_last 100 (iter_order calls)) = 100
  /\ forall key, In key (list_last 100 (iter_order calls)) -> In key calls.
Proof.
  intros Hp Hlen. unfold list_last.
  rewrite length_skipn, (Permutation_length Hp). split; [lia|].
  intros key Hk. apply (Permutation_in _ Hp).
  revert Hk. generalize (iter_order calls). intros l.
  generalize (length calls - 100) as k.
  intros k. revert l. induction k as [|k IH]; intros [|x l]; cbn; auto.
Qed.
End CorrelatorFacts.

(** C9: a placeholder is never accepted as the caller.  A DialBegin or a
    DialState method given a placeholder caller id, and a Newstate method
    given placeholders as connected-line number and caller id, leave no
    caller and no match; the caller the three methods settle on is never a
    placeholder, and neither is the phone of an emitted Notification. *)
Theorem placeholders_never_accepted
    (iter_order : list string -> list string) (self : ami)
    (event : gmap string string) :
  (In (event_get event "CallerIDNum" "") placeholders ->
   method_dial_begin self event (None, false) = (None, false)
   /\ method_dial_state self event (None, false) = (None, false))
  /\ (In (event_get event "ConnectedLineNum" "") placeholders ->
      In (event_get event "CallerIDNum" "") placeholders ->
      method_newstate self event (None, false) = (None, false)
      /\ process_record iter_order self event = (self, []))
  /\ (forall c m, correlate self event = (Some c, m) -> ~ In c placeholders)
  /\ (forall n, In n (snd (process_record iter_order self event)) ->
                ~ In (n_phone n) placeholders).
Proof.
  split_and!.
  - intros H. split.
    + by apply method_dial_begin_placeholder.
    + by apply method_dial_state_placeholder.
  - intros H1 H2. split; [by apply method_newstate_placeholder|].
    apply process_record_unmatched. unfold correlate.
    rewrite method_dial_begin_placeholder, method_dial_state_placeholder by done.
    by apply method_newstate_placeholder.
  - intros c m. apply correlate_caller.
  - intros n Hn. apply process_record_phone in Hn as [m Hm].
    by apply correlate_caller in Hm.
Qed.

Lemma placeholders_never_accepted_witness :
  In (event_get (newstate "1700000000.1" "<unknown>" "anonymous") "ConnectedLineNum" "")
     placeholders
  /\ In (event_get (newstate "1700000000.1" "<unknown>" "anonymous") "CallerIDNum" "")
        placeholders
  /\ process_record oldest_first watcher (newstate "1700000000.1" "<unknown>" "anonymous")
     = (watcher, [])
  /\ method_dial_begin watcher (dial_begin "1700000000.1" "s") (None, false)
     = (None, false).
Proof.
  split_and!.
  - vm_compute. tauto.
  - vm_compute. tauto.
  - apply (proj1 (proj2 (placeholders_never_accepted oldest_first watcher
                           (newstate "1700000000.1" "<unknown>" "anonymous")))).
    + vm_compute. tauto.
    + vm_compute. tauto.
  - apply (proj1 (placeholders_never_accepted oldest_first watcher
                    (dial_begin "1700000000.1" "s"))).
    vm_compute. tauto.
Defined.

(** C6, as stated: two records of one call identity can both be emitted.
    After the first, 200 calls from other callers fill the cache past its
    capacity; even when the trim keeps the 100 newest keys, the identity is
    dropped and the second record is emitted again. *)
Lemma dedup_lost_after_trim :
  correlate watcher (dial_begin "1700000000.0" "0888123456")
  = (Some "0888123456", true)
  /\ count_phone "0888123456"
       (snd (process_records oldest_first watcher
               (dial_begin "1700000000.0" "0888123456"
                :: other_calls 200 ++ [dial_begin "1700000000.0" "0888123456"])))
     = 2.
Proof. vm_compute. split; reflexivity. Qed.

(** C6, amended: for any two Event Records sharing the same linked-call
    identifier and caller number that both satisfy a correlation heuristic,
    when the call identity is not in the dedup cache before the first and
    the cache stays within its capacity of 200 through the first record and
    the records processed between the two (nothing is trimmed, however many
    records there are), exactly one Notification is emitted for the two:
    the first record inserts the call identity and emits, the second is
    suppressed. *)
Theorem dedup_within_capacity
    (iter_order : list string -> list string) (self : ami)
    (first second : gmap string string) (between : list (gmap string string))
    (caller : string) :
  correlate self first = (Some caller, true) ->
  correlate self second = (Some caller, true) ->
  linked_id_of first = linked_id_of second ->
  ~ In (call_key first caller) (_processed_calls self) ->
  within_capacity iter_order self (first :: between) = true ->
  exists self1 self2 out,
    process_record iter_order self first
    = (self1, [{| n_phone := caller; n_metadata := first |}])
    /\ In (call_key first caller) (_processed_calls self1)
    /\ process_records iter_order self1 between = (self2, out)
    /\ process_record iter_order self2 second = (self2, []).
Proof.
  intros H1 H2 Hid Hnew Hcap.
  set (self1 := set_processed_calls self
                  (_processed_calls self ++ [call_key first caller])).
  assert (Hin1 : In (call_key first caller) (_processed_calls self1)).
  { cbn. apply in_or_app. right. by left. }
  assert (Hfirst : process_record iter_order self first
                   = (self1, [{| n_phone := caller; n_metadata := first |}])).
  { apply process_record_fresh; [done|done|].
    cbn [within_capacity] in Hcap.
    pose proof (process_record_new_emits iter_order self first caller H1 Hnew) as Hout.
    destruct (process_record iter_order self first) as [s1 out1].
    cbn [snd] in Hout. subst out1.
    apply andb_true_iff in Hcap as [Hlen _]. apply Nat.leb_le in Hlen.
    cbn [length] in Hlen. lia. }
  assert (Hrest : within_capacity iter_order self1 between = true).
  { cbn [within_capacity] in Hcap. rewrite Hfirst in Hcap.
    by apply andb_true_iff in Hcap as [_ ?]. }
  pose proof (within_capacity_keeps iter_order self1 between Hrest) as Hkeep.
  pose proof (process_records_watch iter_order self1 between) as Hw.
  destruct (process_records iter_order self1 between) as [self2 out] eqn:Hmid.
  cbn [fst] in Hkeep, Hw.
  exists self1, self2, out. split_and!; [done|done|done|].
  apply (process_record_seen iter_order self2 second caller).
  - rewrite <- H2. by apply correlate_watch.
  - unfold call_key. rewrite <- Hid. by apply Hkeep.
Qed.

Lemma dedup_within_capacity_witness :
  let noise := replicate 250 (dial_begin "1700000000.9" "s") in
  let between := other_calls 3 ++ noise in
  correlate watcher (dial_begin "1700000000.0" "0888123456")
  = (Some "0888123456", true)
  /\ correlate watcher (dial_state "1700000000.0" "0888123456")
     = (Some "0888123456", true)
  /\ within_capacity oldest_first watcher
       (dial_begin "1700000000.0" "0888123456" :: between) = true
  /\ exists self1 self2 out,
       process_record oldest_first watcher (dial_begin "1700000000.0" "0888123456")
       = (self1, [{| n_phone := "0888123456";
                     n_metadata := dial_begin "1700000000.0" "0888123456" |}])
       /\ In (call_key (dial_begin "1700000000.0" "0888123456") "0888123456")
             (_processed_calls self1)
       /\ process_records oldest_first self1 between = (self2, out)
       /\ process_record oldest_first self2 (dial_state "1700000000.0" "0888123456")
          = (self2, []).
Proof.
  intros noise between.
  assert (Hcap : within_capacity oldest_first watcher
                   (dial_begin "1700000000.0" "0888123456" :: between) = true)
    by (vm_compute; reflexivity).
  split_and!; [vm_compute; reflexivity..|exact Hcap|].
  apply (dedup_within_capacity oldest_first watcher
           (dial_begin "1700000000.0" "0888123456")
           (dial_state "1700000000.0" "0888123456")
           between "0888123456").
  - vm_compute. reflexivity.
  - vm_compute. reflexivity.
  - vm_compute. reflexivity.
  - vm_compute. tauto.
  - exact Hcap.
Defined.

(** C7, the bound: from a cache of at most 200 keys, and so from the empty
    one, no sequence of records leaves more than 200 keys, whatever the
    order in which the set is enumerated. *)
Lemma dedup_cache_bounded
    (iter_order : list string -> list string) (configured_channel : string)
    (events : list (gmap string string)) :
  length (_processed_calls
            (fst (process_records iter_order (ami_init configured_channel) events)))
  <= 200.
Proof. apply process_records_bounded. cbn. lia. Qed.

(** C7, the trim: with an enumeration that lists the newest key first, the
    201st distinct call leaves the 100 oldest keys in the cache: the key
    just inserted is dropped and the oldest one is kept. *)
Theorem trim_keeps_oldest :
  let cache :=
    _processed_calls (fst (process_records newest_first watcher (other_calls 201))) in
  length cache = 100
  /\ existsb (String.eqb (call_key (other_call 200) "0888100300")) cache = false
  /\ existsb (String.eqb (call_key (other_call 0) "0888100100")) cache = true
  /\ snd (process_record newest_first watcher (other_call 200))
     = [{| n_phone := "0888100300"; n_metadata := other_call 200 |}].
Proof. vm_compute. split_and!; reflexivity. Qed.

(** ** Reconnect loop *)

Section ReconnectFacts.
Variable self : ami.
Hypothesis Hrun : running self = true.
Hypothesis Hauto : _auto_reconnect self = true.
Hypothesis Hconn : connected self = false.

Lemma flat_map_seq_S {A} (f : nat -> list A) a n :
  flat_map f (seq (S a) n) = flat_map (fun i => f (S i)) (seq a n).
Proof.
  revert a. induction n as [|n IH]; intros a; [reflexivity|].
  cbn [seq flat_map]. by rewrite IH.
Qed.

Lemma sleeps_turns (d : nat -> Z) (b : nat -> bool) (l : list nat) :
  sleeps (flat_map (fun i => [StatusReconnecting (d i); Sleep (d i); Connect (b i)]) l)
  = map d l.
Proof.
  induction l as [|i l IH]; [reflexivity|].
  cbn [flat_map map]. unfold sleeps in *. cbn. by rewrite IH.
Qed.

(** [n] failed attempts and a successful one, from retry count [k]: each
    turn announces its delay, sleeps it and then tries to connect. *)
Lemma reconnect_loop_trace n k :
  reconnect_loop (failures_then_success n) self k =
  (Some true, set_connected self true,
   flat_map (fun i =>
               [StatusReconnecting (backoff_delay self (k + Z.of_nat i));
                Sleep (backoff_delay self (k + Z.of_nat i));
                Connect (i =? n)])
            (seq 0 (S n))).
Proof.
  revert k. induction n as [|n IH]; intros k.
  - cbn. rewrite Hrun, Hauto, Hconn. cbn. by rewrite Z.add_0_r.
  - change (failures_then_success (S n))
      with (failed_turn :: failures_then_success n).
    cbn [reconnect_loop]. rewrite Hrun, Hauto, Hconn.
    cbn [andb negb orb stopped_in_sleep connect_ok failed_turn].
    rewrite Hrun, Hauto. cbn [negb orb]. rewrite IH. f_equal.
    change (seq 0 (S (S n))) with (0 :: seq 1 (S n)).
    cbn [flat_map app]. rewrite flat_map_seq_S, Z.add_0_r. cbn [Nat.eqb].
    do 3 f_equal. apply flat_map_ext. intros i.
    by replace (k + 1 + Z.of_nat i)%Z with (k + Z.of_nat (S i))%Z by lia.
Qed.

Lemma reconnect_loop_sleeps n k :
  sleeps (snd (reconnect_loop (failures_then_success n) self k))
  = map (fun i => backoff_delay self (k + Z.of_nat i)) (seq 0 (S n)).
Proof.
  rewrite reconnect_loop_trace. cbn [snd].
  apply (sleeps_turns (fun i => backoff_delay self (k + Z.of_nat i))).
Qed.
End ReconnectFacts.

Lemma backoff_delay_capped (self : ami) (i : Z) :
  _reconnect_delay self = 5%Z -> (4 <= i)%Z -> backoff_delay self i = 60%Z.
Proof.
  intros H Hi. unfold backoff_delay, max_delay. rewrite H.
  assert (2 ^ 4 <= 2 ^ i)%Z by (apply Z.pow_le_mono_r; lia).
  apply Z.min_r. lia.
Qed.

(** C8: in every run of consecutive failed reconnect attempts the loop
    sleeps [min(5 * 2^attempt, 60)] seconds before each attempt: the delays
    are 5, 10, 20, 40, 60, 60, 60, ... ; a successful attempt ends the run,
    and the next run starts again from attempt zero. *)
Theorem reconnect_backoff (self : ami) (n m : nat) :
  running self = true ->
  _auto_reconnect self = true ->
  connected self = false ->
  _reconnect_delay self = 5%Z ->
  let delay := fun i : nat => Z.min (5 * 2 ^ Z.of_nat i) 60 in
  let lost := set_connected (set_connected self true) false in
  _reconnect (failures_then_success n) self
  = (Some true, set_connected self true,
     flat_map (fun i => [StatusReconnecting (delay i); Sleep (delay i);
                         Connect (i =? n)])
              (seq 0 (S n)))
  /\ sleeps (snd (_reconnect (failures_then_success n) self))
     = map delay (seq 0 (S n))
  /\ map delay (seq 0 7) = [5; 10; 20; 40; 60; 60; 60]%Z
  /\ (forall i, 4 <= i -> delay i = 60%Z)
  /\ fst (_reconnect (failures_then_success m) lost)
     = (Some true, set_connected lost true)
  /\ sleeps (snd (_reconnect (failures_then_success m) lost))
     = map delay (seq 0 (S m)).
Proof.
  intros Hrun Hauto Hconn Hdelay delay lost.
  assert (Hd : forall i, backoff_delay self (0 + Z.of_nat i) = delay i).
  { intros i. unfold backoff_delay, delay, max_delay. by rewrite Hdelay. }
  assert (Hd' : forall i, backoff_delay lost (0 + Z.of_nat i) = delay i).
  { intros i. unfold backoff_delay, delay, max_delay, lost. cbn. by rewrite Hdelay. }
  unfold _reconnect. split_and!.
  - rewrite reconnect_loop_trace by done. f_equal.
    apply flat_map_ext. intros i. by rewrite Hd.
  - rewrite reconnect_loop_sleeps by done. apply map_ext. intros i. apply Hd.
  - reflexivity.
  - intros i Hi. rewrite <- Hd. apply backoff_delay_capped; [done|lia].
  - by rewrite reconnect_loop_trace.
  - rewrite reconnect_loop_sleeps by done. apply map_ext. intros i. apply Hd'.
Qed.

Lemma reconnect_backoff_witness :
  running watcher = true
  /\ _auto_reconnect watcher = true
  /\ connected watcher = false
  /\ _reconnect_delay watcher = 5%Z
  /\ sleeps (snd (_reconnect (failures_then_success 6) watcher))
     = [5; 10; 20; 40; 60; 60; 60]%Z.
Proof.
  split_and!; [reflexivity..|].
  apply (proj1 (proj2 (reconnect_backoff watcher 6 0
                         eq_refl eq_refl eq_refl eq_refl))).
Defined.

(** * Further properties of the code *)

(** ** Phone normalizer and matcher, continued *)

Section PhoneMore.
Implicit Types a b raw digits n s : string.

Lemma app_empty_r s : s +:+ "" = s.
Proof.
  induction s as [|c s IH]; [reflexivity|]. by rewrite app_cons, IH.
Qed.

Lemma only_digits_strip s : only_digits (strip_non_digits s) = true.
Proof.
  induction s as [|c s IH]; [reflexivity|]. cbn [strip_non_digits].
  destruct (is_digit c) eqn:Hc; [|exact IH].
  cbn [only_digits]. by rewrite Hc, IH.
Qed.

Lemma strip_only_digits s : only_digits s = true -> strip_non_digits s = s.
Proof.
  induction s as [|c s IH]; [reflexivity|]. cbn [only_digits strip_non_digits].
  intros [Hc Hs]%andb_true_iff. rewrite Hc. f_equal. by apply IH.
Qed.

Lemma only_digits_app s n :
  only_digits (s +:+ n) = only_digits s && only_digits n.
Proof.
  induction s as [|c s IH]; [reflexivity|].
  rewrite app_cons. cbn [only_digits]. by rewrite IH, andb_assoc.
Qed.

Lemma strip_non_digits_app s n :
  strip_non_digits (s +:+ n) = strip_non_digits s +:+ strip_non_digits n.
Proof.
  induction s as [|c s IH]; [reflexivity|].
  rewrite app_cons. cbn [strip_non_digits].
  destruct (is_digit c); [|exact IH]. by rewrite app_cons, IH.
Qed.

Lemma only_digits_drop k s : only_digits s = true -> only_digits (str_drop k s) = true.
Proof.
  revert s. induction k as [|k IH]; intros s H; [exact H|].
  destruct s as [|c s]; [reflexivity|]. cbn [str_drop].
  apply IH. cbn [only_digits] in H. by apply andb_true_iff in H as [_ ?].
Qed.

Lemma str_drop_drop j k s : str_drop j (str_drop k s) = str_drop (k + j) s.
Proof.
  revert s. induction k as [|k IH]; intros s; [reflexivity|].
  destruct s as [|c s]; cbn [str_drop Nat.add]; [by destruct j|apply IH].
Qed.

(** What the prefix loop returns is the digits without some first
    characters, at most three of them. *)
Lemma strip_country_prefix_drop digits :
  exists k, k <= 3
    /\ strip_country_prefix country_prefixes digits = str_drop k digits.
Proof.
  rewrite strip_country_prefix_find.
  destruct (find (fun p => startswith digits p) country_prefixes) as [p|] eqn:Hf;
    [|exists 0; split; [lia|reflexivity]].
  destruct (10 <? String.length digits); [|exists 0; split; [lia|reflexivity]].
  exists (String.length p). split; [|reflexivity].
  apply find_some in Hf as [Hin _]. cbn in Hin.
  repeat (destruct Hin as [<-|Hin]; [cbn; lia|]). destruct Hin.
Qed.

Lemma str_drop_suffix k s : exists pre, s = pre +:+ str_drop k s.
Proof.
  revert s. induction k as [|k IH]; intros s; [by exists ""|].
  destruct s as [|c s]; [by exists ""|].
  destruct (IH s) as [pre Hpre]. exists (String c pre).
  rewrite app_cons. cbn [str_drop]. by f_equal.
Qed.

Lemma zero_strip_drop digits :
  exists z, z <= 2
    /\ (if startswith digits "00" then str_drop 2 digits
        else if startswith digits "0" then str_drop 1 digits
        else digits) = str_drop z digits.
Proof.
  destruct (startswith digits "00"); [exists 2; split; [lia|reflexivity]|].
  destruct (startswith digits "0"); [exists 1|exists 0]; split; (lia || reflexivity).
Qed.

(** The normal form is the digit string without some first characters; it
    has at most ten characters, and at least six when more than ten digits
    were given. *)
Lemma normalize_phone_shape raw :
  exists k,
    normalize_phone raw = str_drop k (strip_non_digits raw)
    /\ String.length (normalize_phone raw) <= 10
    /\ (10 < String.length (strip_non_digits raw) ->
        6 <= String.length (normalize_phone raw)).
Proof.
  destruct (Nat.le_gt_cases (String.length (strip_non_digits raw)) 10) as [Hs|Hl].
  - exists 0. rewrite normalize_phone_short by done. split_and!; [done|done|lia].
  - unfold normalize_phone.
    replace (10 <? String.length (strip_non_digits raw)) with true
      by (symmetry; by apply Nat.ltb_lt).
    destruct (zero_strip_drop (strip_non_digits raw)) as (z & Hz & ->).
    destruct (strip_country_prefix_drop (str_drop z (strip_non_digits raw)))
      as (k & Hk & ->).
    rewrite str_drop_drop.
    set (d2 := str_drop (z + k) (strip_non_digits raw)).
    assert (Hd2 : String.length d2 = String.length (strip_non_digits raw) - (z + k))
      by apply str_drop_length.
    destruct (10 <=? String.length d2) eqn:Hten.
    + apply Nat.leb_le in Hten. unfold str_last.
      exists (z + k + (String.length d2 - 10)). unfold d2 at 2.
      rewrite str_drop_drop. split; [reflexivity|].
      rewrite str_drop_length. lia.
    + apply Nat.leb_gt in Hten. exists (z + k). split; [reflexivity|]. lia.
Qed.
End PhoneMore.

(** X1: whatever the input, the normal form consists of decimal digits only,
    has at most ten of them, and is an end piece of the digits of the
    input. *)
Theorem normalize_phone_output (raw : string) :
  only_digits (normalize_phone raw) = true
  /\ String.length (normalize_phone raw) <= 10
  /\ exists pre, strip_non_digits raw = pre +:+ normalize_phone raw.
Proof.
  destruct (normalize_phone_shape raw) as (k & Hk & Hlen & _).
  split_and!; [|exact Hlen|].
  - rewrite Hk. apply only_digits_drop, only_digits_strip.
  - rewrite Hk. apply str_drop_suffix.
Qed.

(** X2: normalizing is idempotent, and it reads nothing of the input but
    its digits: punctuation, spaces and letters never change the result. *)
Theorem normalize_phone_idempotent (raw : string) :
  normalize_phone (normalize_phone raw) = normalize_phone raw
  /\ normalize_phone (strip_non_digits raw) = normalize_phone raw.
Proof.
  destruct (normalize_phone_shape raw) as (k & Hk & Hlen & _).
  assert (Hd : only_digits (normalize_phone raw) = true).
  { rewrite Hk. apply only_digits_drop, only_digits_strip. }
  split.
  - rewrite normalize_phone_short; rewrite (strip_only_digits _ Hd); done.
  - unfold normalize_phone.
    by rewrite (strip_only_digits _ (only_digits_strip raw)).
Qed.

Lemma normalize_359 (n : string) :
  only_digits n = true ->
  8 <= String.length n <= 10 ->
  normalize_phone ("+359" +:+ n) = n
  /\ normalize_phone ("00359" +:+ n) = n.
Proof.
  intros Hd [Hlo Hhi].
  assert (Hcore : forall d, d = "359" +:+ n ->
            (if 10 <=? String.length (strip_country_prefix country_prefixes d)
             then str_last 10 (strip_country_prefix country_prefixes d)
             else strip_country_prefix country_prefixes d) = n).
  { intros d ->.
    assert (Hs : strip_country_prefix country_prefixes ("359" +:+ n) = n).
    { rewrite strip_country_prefix_find.
      replace (10 <? String.length ("359" +:+ n)) with true
        by (symmetry; apply Nat.ltb_lt; rewrite app_length; cbn; lia).
      reflexivity. }
    rewrite Hs. destruct (10 <=? String.length n); [|reflexivity].
    by apply str_last_whole. }
  split.
  - unfold normalize_phone.
    replace (strip_non_digits ("+359" +:+ n)) with ("359" +:+ n)
      by (rewrite strip_non_digits_app, (strip_only_digits n Hd); reflexivity).
    replace (10 <? String.length ("359" +:+ n)) with true
      by (symmetry; apply Nat.ltb_lt; rewrite app_length; cbn; lia).
    by apply Hcore.
  - unfold normalize_phone.
    replace (strip_non_digits ("00359" +:+ n)) with ("00359" +:+ n)
      by (rewrite strip_non_digits_app, (strip_only_digits n Hd); reflexivity).
    replace (10 <? String.length ("00359" +:+ n)) with true
      by (symmetry; apply Nat.ltb_lt; rewrite app_length; cbn; lia).
    by apply Hcore.
Qed.

(** X3: the Bulgarian country code is removed: for a national number [n] of
    eight to ten digits, written after "+359" or after "00359", the normal
    form is [n]. *)
Theorem normalize_bulgarian_code (n : string) :
  only_digits n = true ->
  8 <= String.length n <= 10 ->
  normalize_phone ("+359" +:+ n) = n
  /\ normalize_phone ("00359" +:+ n) = n.
Proof. apply normalize_359. Qed.

Lemma normalize_bulgarian_code_witness :
  only_digits "888123456" = true
  /\ 8 <= String.length "888123456" <= 10
  /\ normalize_phone ("+359" +:+ "888123456") = "888123456".
Proof.
  split_and!; [reflexivity|vm_compute; lia|cbn; lia|].
  apply (normalize_bulgarian_code "888123456"); [reflexivity|cbn; lia].
Defined.

Section MatchMore.
Implicit Types a b n s : string.

Lemma str_in_refl s : str_in s s = true.
Proof. apply str_in_spec. exists "", "". by rewrite app_nil_l, app_empty_r. Qed.

Lemma _phone_matches_refl s : s <> "" -> _phone_matches s s = true.
Proof.
  intros H. apply _phone_matches_spec. split_and!; [done..|].
  left. apply str_in_spec, str_in_refl.
Qed.

Lemma _phone_matches_empty_l s : _phone_matches "" s = false.
Proof. reflexivity. Qed.

Lemma _phone_matches_empty_r s : _phone_matches s "" = false.
Proof. rewrite _phone_matches_sym. reflexivity. Qed.

(** The normal form is empty exactly when the input has no digit. *)
Lemma normalize_phone_empty a :
  normalize_phone a = "" <-> strip_non_digits a = "".
Proof.
  destruct (normalize_phone_shape a) as (k & Hk & _ & Hsix).
  destruct (Nat.le_gt_cases (String.length (strip_non_digits a)) 10) as [Hs|Hl].
  - by rewrite normalize_phone_short.
  - specialize (Hsix Hl). split.
    + intros H. rewrite H in Hsix. cbn in Hsix. lia.
    + intros H. rewrite H in Hl. cbn in Hl. lia.
Qed.

Lemma lstrip_zeros_only_digits s :
  only_digits s = true -> only_digits (lstrip_zeros s) = true.
Proof.
  induction s as [|c s IH]; [reflexivity|]. cbn [lstrip_zeros].
  destruct (Ascii.eqb c "0"); [|done].
  cbn [only_digits]. intros [_ H]%andb_true_iff. by apply IH.
Qed.

Lemma lstrip_zeros_no_zero s : startswith (lstrip_zeros s) "0" = false.
Proof.
  induction s as [|c s IH]; [reflexivity|]. cbn [lstrip_zeros].
  destruct (Ascii.eqb c "0") eqn:Hc; [exact IH|].
  cbn [startswith]. by rewrite Ascii.eqb_sym, Hc.
Qed.
End MatchMore.

(** X4: the usual spellings of one Bulgarian number match each other: for a
    national number [n] of eight or nine digits, any two of "0" + n, n
    alone, "+359" + n and "00359" + n, in either order, are matched by the
    lookup, and so is each of them with itself. *)
Theorem lookup_match_bulgarian_forms (n a b : string) :
  only_digits n = true ->
  8 <= String.length n <= 9 ->
  In a ["0" +:+ n; n; "+359" +:+ n; "00359" +:+ n] ->
  In b ["0" +:+ n; n; "+359" +:+ n; "00359" +:+ n] ->
  lookup_match a b = true.
Proof.
  intros Hd [Hlo Hhi] Ha Hb.
  destruct (normalize_359 n Hd) as [Hplus Hzz]; [lia|].
  assert (Hn : normalize_phone n = n).
  { rewrite normalize_phone_short; rewrite (strip_only_digits n Hd); [done|lia]. }
  assert (H0 : normalize_phone ("0" +:+ n) = "0" +:+ n).
  { assert (Hd0 : only_digits ("0" +:+ n) = true) by (by rewrite only_digits_app, Hd).
    rewrite normalize_phone_short; rewrite (strip_only_digits _ Hd0); [done|].
    rewrite app_length. cbn. lia. }
  assert (Hne : n <> "") by (intros ->; cbn in Hlo; lia).
  assert (Hin : _phone_matches ("0" +:+ n) n = true).
  { apply _phone_matches_spec. split_and!; [done|done|].
    right. left. exists "0", "". by rewrite app_empty_r. }
  assert (Hni : _phone_matches n ("0" +:+ n) = true).
  { apply _phone_matches_spec. split_and!; [done|done|].
    left. exists "0", "". by rewrite app_empty_r. }
  assert (Hnorm : forall x, In x ["0" +:+ n; n; "+359" +:+ n; "00359" +:+ n] ->
                            normalize_phone x = "0" +:+ n \/ normalize_phone x = n).
  { intros x [<-|[<-|[<-|[<-|[]]]]]; auto. }
  unfold lookup_match.
  destruct (Hnorm a Ha) as [-> | ->], (Hnorm b Hb) as [-> | ->];
    try done; by apply _phone_matches_refl.
Qed.

Lemma lookup_match_bulgarian_forms_witness :
  only_digits "888123456" = true
  /\ 8 <= String.length "888123456" <= 9
  /\ lookup_match "888123456" ("00359" +:+ "888123456") = true
  /\ lookup_match ("00359" +:+ "888123456") ("0" +:+ "888123456") = true.
Proof.
  split_and!; [reflexivity|cbn; lia|cbn; lia|..];
    apply (lookup_match_bulgarian_forms "888123456");
    solve [reflexivity | cbn; lia | cbn; tauto].
Defined.

(** X5: a phone without any digit matches nothing, on either side, and a
    phone with at least one digit matches itself. *)
Theorem lookup_match_digits (a b : string) :
  (strip_non_digits a = "" ->
   lookup_match a b = false /\ lookup_match b a = false)
  /\ (lookup_match a a = true <-> strip_non_digits a <> "").
Proof.
  split.
  - intros H%normalize_phone_empty. unfold lookup_match. rewrite H.
    split; [apply _phone_matches_empty_l|apply _phone_matches_empty_r].
  - rewrite <- normalize_phone_empty. unfold lookup_match. split.
    + intros H Hn. rewrite Hn in H. discriminate.
    + apply _phone_matches_refl.
Qed.

Lemma lookup_match_digits_witness :
  strip_non_digits "n/a" = ""
  /\ lookup_match "n/a" "0888123456" = false
  /\ lookup_match "0888123456" "n/a" = false.
Proof.
  split; [reflexivity|].
  apply (proj1 (lookup_match_digits "n/a" "0888123456")). reflexivity.
Defined.

(** X6: the AMI normal form consists of digits only, never starts with a
    zero, and is left unchanged by a second normalization; two numbers with
    one and the same non-empty AMI normal form (they differ by leading zeros
    and punctuation only) match, and a number without a non-zero digit
    matches nothing. *)
Theorem ami_normal_form (a b : string) :
  only_digits (_normalize_number a) = true
  /\ startswith (_normalize_number a) "0" = false
  /\ _normalize_number (_normalize_number a) = _normalize_number a
  /\ (_normalize_number a = _normalize_number b ->
      _normalize_number a <> "" -> _numbers_match a b = true)
  /\ (_normalize_number a = "" ->
      _numbers_match a b = false /\ _numbers_match b a = false).
Proof.
  assert (Hd : only_digits (_normalize_number a) = true).
  { apply lstrip_zeros_only_digits, only_digits_strip. }
  assert (Hz : startswith (_normalize_number a) "0" = false).
  { apply lstrip_zeros_no_zero. }
  split_and!; [exact Hd|exact Hz| | |].
  - unfold _normalize_number at 1.
    by rewrite (strip_only_digits _ Hd), lstrip_zeros_id.
  - intros Heq Hne. rewrite _numbers_match_core, <- Heq.
    by apply _phone_matches_refl.
  - intros He. rewrite !_numbers_match_core, He.
    split; [apply _phone_matches_empty_l|apply _phone_matches_empty_r].
Qed.

Lemma ami_normal_form_witness :
  _normalize_number "0888 123 456" = _normalize_number "888-123-456"
  /\ _normalize_number "0888 123 456" <> ""
  /\ _numbers_match "0888 123 456" "888-123-456" = true
  /\ _normalize_number "000" = ""
  /\ _numbers_match "000" "000" = false.
Proof.
  split_and!; [reflexivity|vm_compute; discriminate| |reflexivity|].
  - apply (proj1 (proj2 (proj2 (proj2 (ami_normal_form "0888 123 456" "888-123-456")))));
      [reflexivity|vm_compute; discriminate].
  - apply (proj2 (proj2 (proj2 (proj2 (ami_normal_form "000" "000"))))).
    reflexivity.
Defined.

(** ** Webhook listener, continued *)

(** X7: whatever [json.loads] does and whatever the request, the handler
    emits at most one Notification, it emits one exactly when it answers
    200, the Notification then carries the "android" origin, and every path
    other than /incoming-call is answered 404 without a Notification. *)
Theorem webhook_emits_only_with_200 (loads : string -> exn + json) (req : request) :
  length (snd (do_POST loads req)) <= 1
  /\ (snd (do_POST loads req) <> [] <-> resp_status (fst (do_POST loads req)) = 200%Z)
  /\ (forall n, In n (snd (do_POST loads req)) -> n_metadata n = android_source)
  /\ (req_path req <> "/incoming-call" ->
      do_POST loads req = ({| resp_status := 404; resp_body := NoBody |}, [])).
Proof.
  unfold do_POST.
  destruct (String.eqb (req_path req) "/incoming-call") eqn:Hp.
  - assert (Hno : forall code body,
              code <> 200%Z ->
              let r : response * list notification :=
                ({| resp_status := code; resp_body := body |}, []) in
              length (snd r) <= 1
              /\ (snd r <> [] <-> resp_status (fst r) = 200%Z)
              /\ (forall n, In n (snd r) -> n_metadata n = android_source)
              /\ (req_path req <> "/incoming-call" -> r = ({| resp_status := 404; resp_body := NoBody |}, []))).
    { intros code body Hc. cbn. split_and!; [lia| |tauto|].
      - split; [congruence|]. intros ->. congruence.
      - intros Hne. apply String.eqb_eq in Hp. contradiction. }
    destruct (loads (req_body req)) as [e|data]; [by apply Hno|].
    destruct data; try (by apply Hno).
    destruct (truthy _) eqn:Ht; [|by apply Hno].
    destruct (default (JStr "") (obj_get members "phone")); try (by apply Hno).
    cbn. split_and!; [lia| | |].
    + split; [done|congruence].
    + by intros n [<-|[]].
    + intros Hne. apply String.eqb_eq in Hp. contradiction.
  - cbn. split_and!; [lia| |tauto|done].
    split; [congruence|discriminate].
Qed.

Lemma webhook_emits_only_with_200_witness :
  req_path {| req_path := "/health"; req_body := body_with_phone "0888123456" |}
  <> "/incoming-call"
  /\ do_POST json_loads
       {| req_path := "/health"; req_body := body_with_phone "0888123456" |}
     = ({| resp_status := 404; resp_body := NoBody |}, []).
Proof.
  split; [discriminate|].
  apply (proj2 (proj2 (proj2 (webhook_emits_only_with_200 json_loads
           {| req_path := "/health"; req_body := body_with_phone "0888123456" |})))).
  discriminate.
Defined.

(** ** Call correlator, continued *)

Section CorrelatorMore.
Implicit Types (self : ami) (event : gmap string string).
Implicit Types (st : option string * bool) (c v name uid : string).

Lemma upper_app s t : upper (s +:+ t) = upper s +:+ upper t.
Proof.
  induction s as [|c s IH]; [reflexivity|].
  rewrite app_cons. cbn [upper]. by rewrite app_cons, IH.
Qed.

Lemma upper_char_hyphen (c : ascii) :
  Ascii.eqb (upper_char c) "-" = Ascii.eqb c "-".
Proof. by destruct c as [[] [] [] [] [] [] [] []]. Qed.

Lemma partition_upper_none name :
  partition "-" name = None -> partition "-" (upper name) = None.
Proof.
  induction name as [|c s IH]; [reflexivity|]. cbn [partition upper].
  rewrite upper_char_hyphen. destruct (Ascii.eqb c "-"); [discriminate|].
  destruct (partition "-" s) as [[k w]|]; [discriminate|].
  intros _. by rewrite IH.
Qed.

Lemma partition_app_sep (sep : ascii) (l r : string) :
  partition sep l = None ->
  partition sep (l +:+ String sep r) = Some (l, r).
Proof.
  induction l as [|c l IH].
  - intros _. rewrite app_nil_l. cbn [partition]. by rewrite Ascii.eqb_refl.
  - cbn [partition]. rewrite app_cons. cbn [partition].
    destruct (Ascii.eqb c sep); [discriminate|].
    destruct (partition sep l) as [[k w]|]; [discriminate|].
    intros _. by rewrite IH.
Qed.

(** The base name of "<name>-<unique suffix>" is the name in upper case. *)
Lemma channel_base_suffix name uid :
  partition "-" name = None ->
  channel_base (name +:+ "-" +:+ uid) = upper name.
Proof.
  intros H. unfold channel_base, before_first.
  rewrite upper_app.
  change (upper ("-" +:+ uid)) with (String "-" (upper uid)).
  by rewrite (partition_app_sep "-" (upper name) (upper uid)
                (partition_upper_none _ H)).
Qed.

Lemma upper_nonempty name : name <> "" -> str_truthy (upper name) = true.
Proof. by destruct name. Qed.

Lemma real_caller_real v : ~ In v placeholders -> real_caller v = Some v.
Proof.
  intros H. unfold real_caller.
  assert (Hv : forall p, In p placeholders -> String.eqb v p = false).
  { intros p Hp. apply String.eqb_neq. intros ->. contradiction. }
  unfold str_truthy. rewrite (Hv ""); [|cbn; tauto].
  cbn [existsb placeholders].
  rewrite (Hv "<unknown>"), (Hv "s"), (Hv "anonymous"), (Hv ""); [done|cbn; tauto..].
Qed.

Lemma method_dial_state_matched self event st :
  snd st = true -> method_dial_state self event st = st.
Proof. intros H. unfold method_dial_state. by rewrite H. Qed.

Lemma method_newstate_matched self event st :
  snd st = true -> method_newstate self event st = st.
Proof. intros H. unfold method_newstate. by rewrite H. Qed.

Lemma method_dial_begin_other self event st :
  event_get event "Event" "" <> "DialBegin" \/ watch_channel self = "" ->
  method_dial_begin self event st = st.
Proof.
  intros [H%String.eqb_neq | H]; unfold method_dial_begin; rewrite H; [done|].
  by rewrite andb_false_r.
Qed.

Lemma method_dial_state_other self event st :
  event_get event "Event" "" <> "DialState" \/ watch_channel self = "" ->
  method_dial_state self event st = st.
Proof.
  intros [H%String.eqb_neq | H]; unfold method_dial_state; rewrite H.
  - by rewrite andb_false_r.
  - cbn [str_truthy String.eqb negb]. by rewrite !andb_false_r.
Qed.

Lemma method_newstate_other self event st :
  event_get event "Event" "" <> "Newstate" \/ watch_channel self = "" ->
  method_newstate self event st = st.
Proof.
  intros [H%String.eqb_neq | H]; unfold method_newstate; rewrite H.
  - by rewrite andb_false_r.
  - cbn [str_truthy String.eqb negb]. by rewrite !andb_false_r.
Qed.

(** Where the settled caller comes from. *)
Lemma method_dial_begin_origin self event st c :
  fst (method_dial_begin self event st) = Some c ->
  fst st = Some c \/ c = event_get event "CallerIDNum" "".
Proof.
  unfold method_dial_begin.
  repeat match goal with |- context [if ?b then _ else _] => destruct b end;
    cbn [fst]; intros H; auto; right; by apply real_caller_Some in H as [? _].
Qed.

Lemma method_dial_state_origin self event st c :
  fst (method_dial_state self event st) = Some c ->
  fst st = Some c \/ c = event_get event "CallerIDNum" "".
Proof.
  unfold method_dial_state.
  repeat match goal with |- context [if ?b then _ else _] => destruct b end;
    cbn [fst]; intros H; auto; right; by apply real_caller_Some in H as [? _].
Qed.

Lemma method_newstate_origin self event st c :
  fst (method_newstate self event st) = Some c ->
  fst st = Some c \/ c = event_get event "CallerIDNum" ""
  \/ c = event_get event "ConnectedLineNum" "".
Proof.
  unfold method_newstate.
  repeat match goal with |- context [if ?b then _ else _] => destruct b end;
    cbn [fst]; intros H; auto; right;
    apply real_caller_Some in H as [? _]; auto.
Qed.

Lemma correlate_origin self event c m :
  correlate self event = (Some c, m) ->
  c = event_get event "CallerIDNum" "" \/ c = event_get event "ConnectedLineNum" "".
Proof.
  unfold correlate. intros H.
  assert (Hc : fst (method_newstate self event
                      (method_dial_state self event
                         (method_dial_begin self event (None, false))))
               = Some c) by (by rewrite H).
  apply method_newstate_origin in Hc as [Hc|[?|?]]; [|auto..].
  apply method_dial_state_origin in Hc as [Hc|?]; [|auto].
  apply method_dial_begin_origin in Hc as [Hc|?]; [discriminate|auto].
Qed.
End CorrelatorMore.

Section Detection.
Variables (self : ami) (event : gmap string string) (name uid caller : string).
Hypothesis Hname : name <> "".
Hypothesis Hhyphen : partition "-" name = None.
Hypothesis Hwatch : watch_channel self = upper name.
Hypothesis Hreal : ~ In caller placeholders.

Lemma channel_truthy : str_truthy (name +:+ "-" +:+ uid) = true.
Proof. destruct name; [done|reflexivity]. Qed.

Lemma caller_truthy : opt_truthy (Some caller) = true.
Proof.
  cbn [opt_truthy]. unfold str_truthy. apply negb_true_iff, String.eqb_neq.
  intros ->. apply Hreal. cbn. tauto.
Qed.

Lemma detect_dial_begin :
  event_get event "Event" "" = "DialBegin" ->
  event_get event "DestChannel" "" = name +:+ "-" +:+ uid ->
  event_get event "CallerIDNum" "" = caller ->
  correlate self event = (Some caller, true).
Proof.
  intros HE HD HC. unfold correlate.
  assert (H1 : method_dial_begin self event (None, false) = (Some caller, true)).
  { unfold method_dial_begin. rewrite HE, HD, HC, Hwatch.
    rewrite String.eqb_refl, (upper_nonempty _ Hname), channel_truthy.
    cbn [andb]. rewrite (channel_base_suffix _ _ Hhyphen), String.eqb_refl.
    by rewrite (real_caller_real _ Hreal), caller_truthy. }
  rewrite H1. by rewrite method_dial_state_matched, method_newstate_matched.
Qed.

Lemma detect_dial_state :
  event_get event "Event" "" = "DialState" ->
  event_get event "DestChannel" "" = name +:+ "-" +:+ uid ->
  event_get event "ChannelStateDesc" "" = "Ringing" ->
  event_get event "CallerIDNum" "" = caller ->
  correlate self event = (Some caller, true).
Proof.
  intros HE HD HS HC. unfold correlate.
  rewrite method_dial_begin_other by (left; rewrite HE; discriminate).
  assert (H2 : method_dial_state self event (None, false) = (Some caller, true)).
  { unfold method_dial_state. rewrite HE, HD, HS, HC, Hwatch.
    rewrite !String.eqb_refl, (upper_nonempty _ Hname), channel_truthy.
    cbn [andb negb snd]. rewrite (channel_base_suffix _ _ Hhyphen), String.eqb_refl.
    cbn [andb]. by rewrite (real_caller_real _ Hreal), caller_truthy. }
  rewrite H2. by rewrite method_newstate_matched.
Qed.

Lemma detect_newstate :
  event_get event "Event" "" = "Newstate" ->
  event_get event "Channel" "" = name +:+ "-" +:+ uid ->
  event_get event "ChannelStateDesc" "" = "Ringing" ->
  event_get event "ConnectedLineNum" "" = caller
  \/ (In (event_get event "ConnectedLineNum" "") placeholders
      /\ event_get event "CallerIDNum" "" = caller) ->
  correlate self event = (Some caller, true).
Proof.
  intros HE HCh HS HC. unfold correlate.
  rewrite method_dial_begin_other by (left; rewrite HE; discriminate).
  rewrite method_dial_state_other by (left; rewrite HE; discriminate).
  unfold method_newstate. rewrite HE, HCh, HS, Hwatch.
  rewrite !String.eqb_refl, (upper_nonempty _ Hname), channel_truthy.
  cbn [andb negb snd]. rewrite (channel_base_suffix _ _ Hhyphen), String.eqb_refl.
  destruct HC as [HC | [HP HC]].
  - rewrite HC, (real_caller_real _ Hreal), caller_truthy. cbn [negb].
    by rewrite caller_truthy.
  - rewrite (real_caller_placeholder _ HP). cbn [opt_truthy negb].
    by rewrite HC, (real_caller_real _ Hreal), caller_truthy.
Qed.
End Detection.

(** X8: every ring of the watched line with a real caller is detected.  For
    a watched channel configured as [name] (without a hyphen, in any letter
    case) and a channel "<name>-<suffix>": a DialBegin record towards it, a
    DialState record towards it in state Ringing, each with a caller id that
    is no placeholder, and a Newstate record of it in state Ringing whose
    connected-line number, or else whose caller id when the connected-line
    number is a placeholder, is no placeholder, all settle on that caller
    with the match flag set. *)
Theorem detection_complete (self : ami) (event : gmap string string)
    (name uid caller : string) :
  name <> "" ->
  partition "-" name = None ->
  watch_channel self = upper name ->
  ~ In caller placeholders ->
  (event_get event "Event" "" = "DialBegin" ->
   event_get event "DestChannel" "" = name +:+ "-" +:+ uid ->
   event_get event "CallerIDNum" "" = caller ->
   correlate self event = (Some caller, true))
  /\ (event_get event "Event" "" = "DialState" ->
      event_get event "DestChannel" "" = name +:+ "-" +:+ uid ->
      event_get event "ChannelStateDesc" "" = "Ringing" ->
      event_get event "CallerIDNum" "" = caller ->
      correlate self event = (Some caller, true))
  /\ (event_get event "Event" "" = "Newstate" ->
      event_get event "Channel" "" = name +:+ "-" +:+ uid ->
      event_get event "ChannelStateDesc" "" = "Ringing" ->
      event_get event "ConnectedLineNum" "" = caller
      \/ (In (event_get event "ConnectedLineNum" "") placeholders
          /\ event_get event "CallerIDNum" "" = caller) ->
      correlate self event = (Some caller, true)).
Proof.
  intros H1 H2 H3 H4. split_and!.
  - by apply detect_dial_begin.
  - by apply detect_dial_state.
  - by apply detect_newstate.
Qed.

Lemma detection_complete_witness :
  watch_channel watcher = upper "SIP/1034"
  /\ ~ In "0888123456" placeholders
  /\ correlate watcher (newstate "1700000000.7" "<unknown>" "0888123456")
     = (Some "0888123456", true).
Proof.
  assert (Hreal : ~ In "0888123456" placeholders).
  { cbn. intros [H|[H|[H|[H|[]]]]]; discriminate. }
  split_and!; [reflexivity|exact Hreal|].
  apply (proj2 (proj2 (detection_complete watcher
           (newstate "1700000000.7" "<unknown>" "0888123456")
           "SIP/1034" "00000a1b" "0888123456"
           ltac:(discriminate) eq_refl eq_refl Hreal)));
    [vm_compute; reflexivity..|].
  right. split; [cbn; tauto|reflexivity].
Defined.

(** X9: records that can never notify.  When no watched channel is
    configured, or when the record's type is none of DialBegin, DialState
    and Newstate, or when a DialState or Newstate record is not in state
    Ringing, the record emits nothing and leaves the object as it was. *)
Theorem ignored_records (iter_order : list string -> list string)
    (self : ami) (event : gmap string string) :
  watch_channel self = ""
  \/ (event_get event "Event" "" <> "DialBegin"
      /\ event_get event "Event" "" <> "DialState"
      /\ event_get event "Event" "" <> "Newstate")
  \/ (event_get event "Event" "" <> "DialBegin"
      /\ event_get event "ChannelStateDesc" "" <> "Ringing") ->
  process_record iter_order self event = (self, []).
Proof.
  intros H. apply process_record_unmatched. unfold correlate.
  destruct H as [H|[(H1 & H2 & H3)|[H1 H2]]].
  - rewrite method_dial_begin_other, method_dial_state_other by auto.
    by apply method_newstate_other; auto.
  - rewrite method_dial_begin_other, method_dial_state_other by auto.
    by apply method_newstate_other; auto.
  - rewrite method_dial_begin_other by auto.
    apply String.eqb_neq in H2.
    assert (Hs : method_dial_state self event (None, false) = (None, false)).
    { unfold method_dial_state. rewrite H2, andb_false_r.
      by destruct (negb _ && _ && _ && _). }
    rewrite Hs. unfold method_newstate. rewrite H2, andb_false_r.
    reflexivity.
Qed.

Lemma ignored_records_witness :
  watch_channel (ami_init "") = ""
  /\ process_record oldest_first (ami_init "") (dial_begin "1700000000.1" "0888123456")
     = (ami_init "", []).
Proof.
  split; [reflexivity|].
  apply (ignored_records oldest_first (ami_init "")
           (dial_begin "1700000000.1" "0888123456")).
  left. reflexivity.
Defined.

(** X10: a record yields at most one Notification.  When it yields none the
    object is unchanged; when it yields one, the Notification carries the
    record itself as metadata and, as phone, the record's caller id or
    connected-line number exactly as received, the key of the call was not
    in the cache before, and nothing of the object but the cache changes. *)
Theorem process_record_outcome (iter_order : list string -> list string)
    (self : ami) (event : gmap string string) :
  process_record iter_order self event = (self, [])
  \/ exists caller calls,
       process_record iter_order self event
       = (set_processed_calls self calls,
          [{| n_phone := caller; n_metadata := event |}])
       /\ (caller = event_get event "CallerIDNum" ""
           \/ caller = event_get event "ConnectedLineNum" "")
       /\ ~ In (call_key event caller) (_processed_calls self).
Proof.
  unfold process_record.
  destruct (correlate self event) as [[c|] m] eqn:Hc; [|by left; destruct (m && _)].
  destruct (m && opt_truthy (Some c)); [|by left].
  destruct (existsb (String.eqb (call_key event c)) (_processed_calls self)) eqn:He;
    [by left|].
  right. cbn [negb]. eexists c, _. split_and!; [reflexivity| |].
  - by apply correlate_origin in Hc.
  - intros Hin%existsb_eqb_In. congruence.
Qed.

Section KeyFacts.
Implicit Types (s x y l r c : string).

Lemma app_inv_head s x y : s +:+ x = s +:+ y -> x = y.
Proof.
  induction s as [|a s IH]; [done|]. rewrite !app_cons. intros [= H]. by apply IH.
Qed.

Lemma linked_id_dial_begin l c : linked_id_of (dial_begin l c) = l.
Proof. reflexivity. Qed.
End KeyFacts.

(** X11: the dedup key tells calls apart.  When the linked-call identifiers
    of two records hold no underscore, as the identifiers Asterisk issues do
    not, equal keys mean equal identifiers and equal callers; with
    underscores two different identities can share one key. *)
Theorem call_key_injective (e1 e2 : gmap string string) (c1 c2 : string) :
  (partition "_" (linked_id_of e1) = None ->
   partition "_" (linked_id_of e2) = None ->
   call_key e1 c1 = call_key e2 c2 ->
   linked_id_of e1 = linked_id_of e2 /\ c1 = c2)
  /\ (forall l x c,
        call_key (dial_begin (l +:+ "_" +:+ x) c) c
        = call_key (dial_begin l c) (x +:+ "_" +:+ c)).
Proof.
  split.
  - intros H1 H2 Hk. unfold call_key in Hk. apply app_inv_head in Hk.
    change ("_" +:+ c1) with (String "_" c1) in Hk.
    change ("_" +:+ c2) with (String "_" c2) in Hk.
    apply (f_equal (partition "_")) in Hk.
    rewrite !partition_app_sep in Hk by done. by injection Hk.
  - intros l x c. unfold call_key. rewrite !linked_id_dial_begin.
    by rewrite !app_assoc.
Qed.

Lemma call_key_injective_witness :
  partition "_" (linked_id_of (dial_begin "1700000000.1" "0888123456")) = None
  /\ partition "_" (linked_id_of (dial_state "1700000000.1" "0888123456")) = None
  /\ linked_id_of (dial_begin "1700000000.1" "0888123456")
     = linked_id_of (dial_state "1700000000.1" "0888123456").
Proof.
  split_and!; [reflexivity..|].
  apply (proj1 (call_key_injective (dial_begin "1700000000.1" "0888123456")
                  (dial_state "1700000000.1" "0888123456")
                  "0888123456" "0888123456"));
    reflexivity.
Defined.

Section CacheSet.
Variable iter_order : list string -> list string.
Hypothesis iter_perm : forall calls, Permutation (iter_order calls) calls.
Implicit Types (self : ami) (event : gmap string string).

Lemma NoDup_skipn_keep {A} k (l : list A) : List.NoDup l -> List.NoDup (skipn k l).
Proof.
  revert l. induction k as [|k IH]; intros [|x l] H; cbn; try done.
  apply IH. by apply List.NoDup_cons_iff in H as [_ ?].
Qed.

Lemma In_skipn_keep {A} k (l : list A) x : In x (skipn k l) -> In x l.
Proof.
  revert l. induction k as [|k IH]; intros [|y l]; cbn; auto.
Qed.

Lemma process_record_nodup self event :
  List.NoDup (_processed_calls self) ->
  List.NoDup (_processed_calls (fst (process_record iter_order self event))).
Proof.
  intros Hnd. unfold process_record.
  destruct (correlate self event) as [[c'|] m]; [|by destruct (m && _)].
  destruct (m && opt_truthy (Some c')); [|done].
  destruct (existsb _ _) eqn:He; cbn [negb]; [done|].
  cbn [fst set_processed_calls _processed_calls].
  assert (Hfresh : ~ In (call_key event c') (_processed_calls self)).
  { intros Hin%existsb_eqb_In. congruence. }
  assert (Hnd' : List.NoDup (_processed_calls self ++ [call_key event c'])).
  { apply List.NoDup_app; [done|apply List.NoDup_cons; [tauto|constructor]|].
    intros x Hx [<-|[]]. contradiction. }
  destruct (200 <? _); [|done].
  unfold list_last. apply NoDup_skipn_keep.
  by apply (Permutation_NoDup (Permutation_sym (iter_perm _))).
Qed.

Lemma process_record_provenance self event key :
  In key (_processed_calls (fst (process_record iter_order self event))) ->
  In key (_processed_calls self) \/ exists c, key = call_key event c.
Proof.
  unfold process_record.
  destruct (correlate self event) as [[c'|] m]; [|by destruct (m && _); auto].
  destruct (m && opt_truthy (Some c')); [|auto].
  destruct (existsb _ _); cbn [negb fst set_processed_calls _processed_calls]; [auto|].
  intros Hin.
  assert (Hin' : In key (_processed_calls self ++ [call_key event c'])).
  { destruct (200 <? _); [|done].
    apply In_skipn_keep in Hin. by apply (Permutation_in _ (iter_perm _)). }
  apply in_app_or in Hin' as [?|[<-|[]]]; eauto.
Qed.

Lemma process_records_set self events :
  List.NoDup (_processed_calls self) ->
  List.NoDup (_processed_calls (fst (process_records iter_order self events)))
  /\ forall key,
       In key (_processed_calls (fst (process_records iter_order self events))) ->
       In key (_processed_calls self)
       \/ exists event c, In event events /\ key = call_key event c.
Proof.
  revert self. induction events as [|e events IH]; intros self Hnd.
  - cbn. auto.
  - cbn [process_records].
    pose proof (process_record_nodup self e Hnd) as Hnd1.
    pose proof (process_record_provenance self e) as Hp1.
    destruct (process_record iter_order self e) as [self1 out1].
    cbn [fst] in Hnd1, Hp1.
    destruct (IH self1 Hnd1) as [Hnd2 Hp2].
    destruct (process_records iter_order self1 events) as [self2 out2].
    cbn [fst] in *. split; [done|].
    intros key Hk. destruct (Hp2 key Hk) as [H1|(ev & c & Hev & ->)].
    + destruct (Hp1 key H1) as [?|[c ->]]; [auto|].
      right. exists e, c. split; [by left|done].
    + right. exists ev, c. split; [by right|done].
Qed.

Lemma trim_on_full_cache self event c :
  correlate self event = (Some c, true) ->
  ~ In (call_key event c) (_processed_calls self) ->
  length (_processed_calls self) = 200 ->
  exists calls,
    process_record iter_order self event
    = (set_processed_calls self calls, [{| n_phone := c; n_metadata := event |}])
    /\ length calls = 100
    /\ forall key, In key calls ->
                   In key (_processed_calls self) \/ key = call_key event c.
Proof.
  intros Hc Hnew Hlen. unfold process_record. rewrite Hc.
  assert (Hne : c <> "").
  { intros ->. apply (correlate_caller _ _ _ _ Hc). cbn. auto. }
  apply String.eqb_neq in Hne. cbn [andb opt_truthy]. unfold str_truthy.
  rewrite Hne. cbn [negb].
  destruct (existsb (String.eqb (call_key event c)) (_processed_calls self)) eqn:He.
  { apply existsb_eqb_In in He. contradiction. }
  cbn [negb]. rewrite length_app, Hlen. cbn [length Nat.add].
  change (200 <? 200 + 1) with true. eexists. split; [reflexivity|].
  destruct (trim_size iter_order (_processed_calls self ++ [call_key event c]))
    as [H100 Hsub]; [apply iter_perm|rewrite length_app; cbn; lia|].
  split; [exact H100|].
  intros key Hk. apply Hsub, in_app_or in Hk as [?|[<-|[]]]; auto.
Qed.
End CacheSet.

(** X13: the cache is a set of keys of processed calls.  Started empty and
    fed any sequence of records, with any enumeration of the set that is a
    permutation of its members, the cache never holds a key twice, and every
    key in it is the key of one of the records fed. *)
Theorem cache_holds_processed_keys
    (iter_order : list string -> list string) (configured_channel : string)
    (events : list (gmap string string)) :
  (forall calls, Permutation (iter_order calls) calls) ->
  let cache :=
    _processed_calls
      (fst (process_records iter_order (ami_init configured_channel) events)) in
  List.NoDup cache
  /\ forall key, In key cache ->
                 exists event c, In event events /\ key = call_key event c.
Proof.
  intros Hperm cache.
  destruct (process_records_set iter_order Hperm (ami_init configured_channel) events)
    as [Hnd Hp]; [constructor|].
  split; [exact Hnd|].
  intros key Hk. destruct (Hp key Hk) as [[]|H]. exact H.
Qed.

Lemma cache_holds_processed_keys_witness :
  (forall calls, Permutation (newest_first calls) calls)
  /\ List.NoDup (_processed_calls
              (fst (process_records newest_first (ami_init "sip/1034") (other_calls 3)))).
Proof.
  assert (Hp : forall calls, Permutation (newest_first calls) calls).
  { intros calls. symmetry. apply Permutation_rev. }
  split; [exact Hp|].
  apply (cache_holds_processed_keys newest_first "sip/1034" (other_calls 3) Hp).
Defined.

(** X14: inserting into a full cache.  When the cache holds 200 keys and a
    matched record brings a new one, the record is emitted and the trim
    leaves exactly 100 keys, each of them one of the 200 or the new key;
    which of the 201 are kept depends on the enumeration of the set. *)
Theorem insertion_into_full_cache
    (iter_order : list string -> list string) (self : ami)
    (event : gmap string string) (caller : string) :
  (forall calls, Permutation (iter_order calls) calls) ->
  correlate self event = (Some caller, true) ->
  ~ In (call_key event caller) (_processed_calls self) ->
  length (_processed_calls self) = 200 ->
  exists calls,
    process_record iter_order self event
    = (set_processed_calls self calls,
       [{| n_phone := caller; n_metadata := event |}])
    /\ length calls = 100
    /\ forall key, In key calls ->
                   In key (_processed_calls self) \/ key = call_key event caller.
Proof. intros Hperm. by apply trim_on_full_cache. Qed.

Lemma insertion_into_full_cache_witness :
  let full := fst (process_records oldest_first watcher (other_calls 200)) in
  length (_processed_calls full) = 200
  /\ exists calls,
       process_record oldest_first full (other_call 200)
       = (set_processed_calls full calls,
          [{| n_phone := "0888100300"; n_metadata := other_call 200 |}])
       /\ length calls = 100
       /\ forall key, In key calls ->
                      In key (_processed_calls full)
                      \/ key = call_key (other_call 200) "0888100300".
Proof.
  intros full. split; [vm_compute; reflexivity|].
  apply (insertion_into_full_cache oldest_first full (other_call 200) "0888100300").
  - intros calls. apply Permutation_refl.
  - vm_compute. reflexivity.
  - intros H%existsb_eqb_In. vm_compute in H. discriminate.
  - vm_compute. reflexivity.
Defined.

(** ** Reconnect loop, continued *)

Section ReconnectMore.
Implicit Types (self : ami) (turns rest : list attempt) (k : Z).

(** One turn of the loop, when it is entered. *)
Lemma reconnect_loop_step self turn rest k :
  running self = true -> _auto_reconnect self = true -> connected self = false ->
  reconnect_loop (turn :: rest) self k =
  let d := backoff_delay self k in
  if stopped_in_sleep turn then
    (Some false, disconnect self, [StatusReconnecting d; Sleep d])
  else if connect_ok turn then
    (Some true, set_connected self true,
     [StatusReconnecting d; Sleep d; Connect true])
  else
    let '(res, self', effs) := reconnect_loop rest self (k + 1) in
    (res, self', StatusReconnecting d :: Sleep d :: Connect false :: effs).
Proof.
  intros Hr Ha Hc. cbn [reconnect_loop]. rewrite Hr, Ha, Hc. cbn [andb negb].
  destruct (stopped_in_sleep turn); [reflexivity|].
  rewrite Hr, Ha. cbn [negb orb].
  destruct (connect_ok turn); [reflexivity|].
  by destruct (reconnect_loop rest self (k + 1)) as [[res self'] effs].
Qed.

Lemma reconnect_loop_idle self turns k :
  running self && _auto_reconnect self && negb (connected self) = false ->
  reconnect_loop turns self k = (Some false, self, []).
Proof. intros H. destruct turns; cbn [reconnect_loop]; by rewrite H. Qed.

Lemma loop_entered_or_idle self :
  (running self = true /\ _auto_reconnect self = true /\ connected self = false)
  \/ running self && _auto_reconnect self && negb (connected self) = false.
Proof.
  destruct (running self), (_auto_reconnect self), (connected self); auto.
Qed.

(** In any run the sleeps are the delays of the retry counts k, k+1, ... *)
Lemma reconnect_loop_sleeps_any turns self k :
  sleeps (snd (reconnect_loop turns self k))
  = map (fun i => backoff_delay self (k + Z.of_nat i))
        (seq 0 (length (sleeps (snd (reconnect_loop turns self k)))))
  /\ length (sleeps (snd (reconnect_loop turns self k))) <= length turns.
Proof.
  destruct (loop_entered_or_idle self) as [(Hr & Ha & Hc)|Hidle];
    [|rewrite reconnect_loop_idle by done; cbn; split; [done|lia]].
  revert k. induction turns as [|turn rest IH]; intros k.
  - cbn [reconnect_loop]. rewrite Hr, Ha, Hc. cbn. split; [done|lia].
  - rewrite reconnect_loop_step by done. cbn zeta.
    destruct (stopped_in_sleep turn);
      [cbn; rewrite Z.add_0_r; split; [done|lia]|].
    destruct (connect_ok turn);
      [cbn; rewrite Z.add_0_r; split; [done|lia]|].
    destruct (IH (k + 1)%Z) as [IH1 IH2].
    destruct (reconnect_loop rest self (k + 1)) as [[res self'] effs].
    cbn [snd] in *.
    change (sleeps (StatusReconnecting (backoff_delay self k)
                    :: Sleep (backoff_delay self k) :: Connect false :: effs))
      with (backoff_delay self k :: sleeps effs).
    cbn [length seq map]. rewrite Z.add_0_r. split; [|lia].
    f_equal. rewrite IH1 at 1. rewrite <- seq_shift, map_map.
    apply map_ext. intros i. f_equal. lia.
Qed.

Lemma backoff_delay_range self k :
  _reconnect_delay self = 5%Z -> (0 <= k)%Z ->
  (5 <= backoff_delay self k <= 60)%Z.
Proof.
  intros H Hk. unfold backoff_delay, max_delay. rewrite H.
  assert (1 <= 2 ^ k)%Z by (apply (Z.pow_le_mono_r 2 0 k); lia). lia.
Qed.

Lemma backoff_delay_mono self j k :
  _reconnect_delay self = 5%Z -> (0 <= j <= k)%Z ->
  (backoff_delay self j <= backoff_delay self k)%Z.
Proof.
  intros H Hk. unfold backoff_delay, max_delay. rewrite H.
  assert (2 ^ j <= 2 ^ k)%Z by (apply Z.pow_le_mono_r; lia). lia.
Qed.

End ReconnectMore.

Section ReconnectStop.
Variable self : ami.
Hypothesis Hrun : running self = true.
Hypothesis Hauto : _auto_reconnect self = true.
Hypothesis Hconn : connected self = false.

Lemma reconnect_loop_stopped n turn rest k :
  stopped_in_sleep turn = true ->
  reconnect_loop (repeat failed_turn n ++ turn :: rest) self k =
  (Some false, disconnect self,
   flat_map (fun i =>
               [StatusReconnecting (backoff_delay self (k + Z.of_nat i));
                Sleep (backoff_delay self (k + Z.of_nat i));
                Connect false])
            (seq 0 n)
   ++ [StatusReconnecting (backoff_delay self (k + Z.of_nat n));
       Sleep (backoff_delay self (k + Z.of_nat n))]).
Proof.
  intros Hs. revert k. induction n as [|n IH]; intros k.
  - cbn [repeat app seq flat_map]. rewrite reconnect_loop_step by done.
    cbn zeta. rewrite Hs. by rewrite Z.add_0_r.
  - cbn [repeat app]. rewrite reconnect_loop_step by done. cbn zeta.
    cbn [stopped_in_sleep connect_ok failed_turn]. rewrite IH.
    f_equal. cbn [seq flat_map app]. rewrite flat_map_seq_S, Z.add_0_r.
    do 3 f_equal. f_equal.
    + apply flat_map_ext. intros i.
      by replace (k + 1 + Z.of_nat i)%Z with (k + Z.of_nat (S i))%Z by lia.
    + by replace (k + 1 + Z.of_nat n)%Z with (k + Z.of_nat (S n))%Z by lia.
Qed.
End ReconnectStop.

(** X15: the loop can be interrupted.  When [disconnect()] is called during
    the sleep that follows [n] failed attempts, [_reconnect] returns False
    with the object disconnected; it has slept the [n + 1] delays and made
    [n] connection attempts, none after the interruption; and a later call
    on the disconnected object returns False at once, without any effect. *)
Theorem reconnect_interrupted (self : ami) (n : nat) (turn : attempt)
    (rest later : list attempt) :
  running self = true ->
  _auto_reconnect self = true ->
  connected self = false ->
  stopped_in_sleep turn = true ->
  let delay := fun i : nat => backoff_delay self (Z.of_nat i) in
  _reconnect (repeat failed_turn n ++ turn :: rest) self
  = (Some false, disconnect self,
     flat_map (fun i => [StatusReconnecting (delay i); Sleep (delay i);
                         Connect false])
              (seq 0 n)
     ++ [StatusReconnecting (delay n); Sleep (delay n)])
  /\ _reconnect later (disconnect self) = (Some false, disconnect self, []).
Proof.
  intros Hr Ha Hc Hs delay. unfold _reconnect. split.
  - by rewrite reconnect_loop_stopped.
  - by apply reconnect_loop_idle.
Qed.

Lemma reconnect_interrupted_witness :
  running watcher = true
  /\ _auto_reconnect watcher = true
  /\ connected watcher = false
  /\ _reconnect
       (repeat failed_turn 2
        ++ {| stopped_in_sleep := true; connect_ok := true |} :: [good_turn])
       watcher
     = (Some false, disconnect watcher,
        [StatusReconnecting 5; Sleep 5; Connect false;
         StatusReconnecting 10; Sleep 10; Connect false;
         StatusReconnecting 20; Sleep 20]%Z).
Proof.
  split_and!; [reflexivity..|].
  apply (proj1 (reconnect_interrupted watcher 2
                  {| stopped_in_sleep := true; connect_ok := true |}
                  [good_turn] [] eq_refl eq_refl eq_refl eq_refl)).
Defined.

(** X16: the delays of any run.  Whatever the turns (failures, a success,
    an interruption), the sleeps of a call of [_reconnect] are
    min(5 * 2^i, 60) for i = 0, 1, 2, ... in this order, at most one a turn:
    each lies between 5 and 60 seconds and none is shorter than the one
    before. *)
Theorem reconnect_delays_any_run (turns : list attempt) (self : ami) :
  _reconnect_delay self = 5%Z ->
  let slept := sleeps (snd (_reconnect turns self)) in
  slept = map (fun i : nat => Z.min (5 * 2 ^ Z.of_nat i) 60) (seq 0 (length slept))
  /\ length slept <= length turns
  /\ Forall (fun d => 5 <= d <= 60)%Z slept
  /\ forall i j, i <= j -> j < length slept -> (nth i slept 0 <= nth j slept 0)%Z.
Proof.
  intros Hd slept.
  destruct (reconnect_loop_sleeps_any turns self 0) as [Heq Hlen].
  fold (_reconnect turns self) in Heq, Hlen. fold slept in Heq, Hlen.
  assert (Hnth : forall i, i < length slept ->
                   nth i slept 0%Z = backoff_delay self (Z.of_nat i)).
  { intros i Hi. rewrite Heq.
    rewrite (nth_indep _ 0%Z (backoff_delay self (0 + Z.of_nat 0)))
      by (by rewrite length_map, length_seq).
    rewrite (map_nth (fun i => backoff_delay self (0 + Z.of_nat i))).
    by rewrite seq_nth. }
  split_and!.
  - rewrite Heq at 1. apply map_ext. intros i.
    unfold backoff_delay, max_delay. by rewrite Hd.
  - exact Hlen.
  - rewrite Heq. apply List.Forall_forall. intros d (i & <- & _)%in_map_iff.
    apply backoff_delay_range; [done|lia].
  - intros i j Hij Hj. rewrite !Hnth by lia.
    apply backoff_delay_mono; [done|lia].
Qed.

Lemma reconnect_delays_any_run_witness :
  _reconnect_delay watcher = 5%Z
  /\ Forall (fun d => 5 <= d <= 60)%Z
       (sleeps (snd (_reconnect (repeat failed_turn 9) watcher))).
Proof.
  split; [reflexivity|].
  apply (proj1 (proj2 (proj2 (reconnect_delays_any_run (repeat failed_turn 9)
                                watcher eq_refl)))).
Defined.


(** ** Frame splitting *)

Section Framing.
Implicit Types (sep s b d a r : string).

Lemma startswith_long_app s d sep :
  String.length sep <= String.length s ->
  startswith (s +:+ d) sep = startswith s sep.
Proof.
  revert s. induction sep as [|c sep IH]; intros s H; [reflexivity|].
  destruct s as [|x s]; cbn in H; [lia|].
  rewrite app_cons. cbn [startswith]. f_equal. apply IH. lia.
Qed.

Lemma startswith_length s sep :
  startswith s sep = true -> String.length sep <= String.length s.
Proof.
  intros H%startswith_inv. rewrite H, app_length. lia.
Qed.

Lemma str_drop_app_long n s d :
  n <= String.length s -> str_drop n (s +:+ d) = str_drop n s +:+ d.
Proof.
  revert s. induction n as [|n IH]; intros s H; [reflexivity|].
  destruct s as [|c s]; cbn in H; [lia|].
  rewrite app_cons. cbn [str_drop]. apply IH. lia.
Qed.

(** [split_once] cuts at an occurrence of the separator, and the text
    before the cut holds none. *)
Lemma split_once_Some sep s a r :
  split_once sep s = Some (a, r) ->
  s = a +:+ sep +:+ r
  /\ String.length sep + String.length r <= String.length s.
Proof.
  revert a r. induction s as [|c s IH]; intros a r; cbn [split_once].
  - destruct (startswith "" sep) eqn:Hs; [|discriminate].
    intros [= <- <-]. rewrite app_nil_l.
    pose proof (startswith_inv _ _ Hs) as Hs'.
    split; [exact Hs'|].
    apply (f_equal String.length) in Hs'. rewrite app_length in Hs'. lia.
  - destruct (startswith (String c s) sep) eqn:Hs.
    + intros [= <- <-]. rewrite app_nil_l.
      pose proof (startswith_inv _ _ Hs) as Hs'.
      split; [exact Hs'|].
    apply (f_equal String.length) in Hs'. rewrite app_length in Hs'. lia.
    + destruct (split_once sep s) as [[a' r']|]; [|discriminate].
      intros [= <- <-]. destruct (IH a' r' eq_refl) as [-> Hl].
      rewrite app_cons. split; [reflexivity|].
      cbn [String.length]. rewrite !app_length in *. lia.
Qed.

Lemma split_once_None sep s : split_once sep s = None <-> str_in sep s = false.
Proof.
  induction s as [|c s IH]; cbn [split_once str_in].
  - destruct (startswith "" sep); cbn; split; congruence.
  - destruct (startswith (String c s) sep); cbn [orb]; [split; congruence|].
    rewrite <- IH. destruct (split_once sep s) as [[a r]|]; split; congruence.
Qed.

Lemma split_once_before sep s a r :
  sep <> "" -> split_once sep s = Some (a, r) -> str_in sep a = false.
Proof.
  intros Hsep. revert a r. induction s as [|c s IH]; intros a r; cbn [split_once].
  - destruct (startswith "" sep); [|discriminate]. intros [= <- <-].
    destruct sep; [done|reflexivity].
  - destruct (startswith (String c s) sep) eqn:Hs.
    + intros [= <- <-]. destruct sep; [done|reflexivity].
    + destruct (split_once sep s) as [[a' r']|] eqn:Hso; [|discriminate].
      intros [= <- <-]. cbn [str_in]. rewrite (IH a' r' eq_refl), orb_false_r.
      destruct (startswith (String c a') sep) eqn:Hs'; [|reflexivity].
      apply split_once_Some in Hso as [-> _].
      rewrite <- app_cons in Hs.
      rewrite startswith_long_app in Hs by (by apply startswith_length).
      congruence.
Qed.

(** An occurrence found in the buffer is found again, at the same place,
    once more text has arrived. *)
Lemma split_once_app sep s d a r :
  split_once sep s = Some (a, r) ->
  split_once sep (s +:+ d) = Some (a, r +:+ d).
Proof.
  revert a r. induction s as [|c s IH]; intros a r; cbn [split_once].
  - destruct (startswith "" sep) eqn:Hs; [|discriminate]. intros [= <- <-].
    destruct sep; [|discriminate]. rewrite app_nil_l.
    destruct d; reflexivity.
  - destruct (startswith (String c s) sep) eqn:Hs.
    + intros [= <- <-]. rewrite app_cons. cbn [split_once].
      rewrite <- app_cons.
      rewrite startswith_long_app, Hs by (by apply startswith_length).
      by rewrite str_drop_app_long by (by apply startswith_length).
    + destruct (split_once sep s) as [[a' r']|] eqn:Hso; [|discriminate].
      intros [= <- <-]. rewrite app_cons. cbn [split_once].
      rewrite (IH a' r' eq_refl).
      rewrite <- app_cons, startswith_long_app, Hs; [reflexivity|].
      apply split_once_Some in Hso as [-> _].
      cbn [String.length]. rewrite !app_length. lia.
Qed.

Lemma str_in_split_once sep s :
  str_in sep s = true -> exists a r, split_once sep s = Some (a, r).
Proof.
  intros H. destruct (split_once sep s) as [[a r]|] eqn:Hs; [eauto|].
  apply split_once_None in Hs. congruence.
Qed.

Lemma frame_end_nonempty : frame_end <> "".
Proof. intros H. vm_compute in H. discriminate. Qed.

(** One turn of the loop. *)
Lemma drain_step fuel b :
  drain (S fuel) b =
  match split_once frame_end b with
  | Some (event_str, rest) =>
      let '(events, final) := drain fuel rest in (event_str :: events, final)
  | None => ([], b)
  end.
Proof.
  cbn [drain]. destruct (str_in frame_end b) eqn:Hin.
  - by destruct (str_in_split_once _ _ Hin) as (a & r & ->).
  - apply split_once_None in Hin. by rewrite Hin.
Qed.

(** Any fuel not below the length of the buffer gives the same result. *)
Lemma drain_fuel f1 f2 b :
  String.length b <= f1 -> String.length b <= f2 -> drain f1 b = drain f2 b.
Proof.
  revert f2 b. induction f1 as [|f1 IH]; intros f2 b H1 H2.
  - apply Nat.le_0_r, length_zero_empty in H1. subst b. by destruct f2.
  - destruct f2 as [|f2].
    { apply Nat.le_0_r, length_zero_empty in H2. by subst b. }
    rewrite !drain_step.
    destruct (split_once frame_end b) as [[a r]|] eqn:Hs; [|reflexivity].
    apply split_once_Some in Hs as [_ Hl].
    change (String.length frame_end) with 4 in Hl.
    by rewrite (IH f2 r) by lia.
Qed.

Lemma split_frames_step b :
  split_frames b =
  match split_once frame_end b with
  | Some (event_str, rest) =>
      let '(events, final) := split_frames rest in (event_str :: events, final)
  | None => ([], b)
  end.
Proof.
  unfold split_frames. destruct b as [|c b]; [reflexivity|].
  cbn [String.length]. rewrite drain_step.
  destruct (split_once frame_end (String c b)) as [[a r]|] eqn:Hs; [|reflexivity].
  apply split_once_Some in Hs as [_ Hl].
    change (String.length frame_end) with 4 in Hl.
  cbn [String.length] in Hl.
  by rewrite (drain_fuel (String.length b) (String.length r) r) by lia.
Qed.

(** Induction on the length of the buffer. *)
Lemma buffer_ind (P : string -> Prop) :
  (forall b, (forall r, String.length r < String.length b -> P r) -> P b) ->
  forall b, P b.
Proof.
  intros H b.
  assert (Hn : forall n r, String.length r < n -> P r).
  { induction n as [|n IH]; intros r Hr; [lia|].
    apply H. intros r' Hr'. apply IH. lia. }
  apply (Hn (S (String.length b))). lia.
Qed.

(** The frames with their terminators, followed by what is left, are the
    buffer; neither a frame nor what is left holds a terminator. *)
Lemma split_frames_sound b :
  b = fold_right (fun f rest => f +:+ frame_end +:+ rest)
        (snd (split_frames b)) (fst (split_frames b))
  /\ Forall (fun f => str_in frame_end f = false) (fst (split_frames b))
  /\ str_in frame_end (snd (split_frames b)) = false.
Proof.
  induction b as [b IH] using buffer_ind.
  rewrite split_frames_step.
  destruct (split_once frame_end b) as [[a r]|] eqn:Hs.
  - pose proof (split_once_before _ _ _ _ frame_end_nonempty Hs) as Ha.
    apply split_once_Some in Hs as [Hb Hl].
    change (String.length frame_end) with 4 in Hl.
    destruct (IH r) as (Hr & Hf & Hrem); [lia|].
    destruct (split_frames r) as [events final]. cbn [fst snd fold_right] in *.
    split_and!; [by rewrite <- Hr|by constructor|done].
  - cbn. split_and!; [done|constructor|by apply split_once_None].
Qed.

(** Splitting does not depend on how the stream was cut into reads. *)
Lemma split_frames_app b d :
  split_frames (b +:+ d) =
  let '(events, rest) := split_frames b in
  let '(events', rest') := split_frames (rest +:+ d) in
  (events ++ events', rest').
Proof.
  induction b as [b IH] using buffer_ind.
  rewrite (split_frames_step b).
  destruct (split_once frame_end b) as [[a r]|] eqn:Hs.
  - rewrite (split_frames_step (b +:+ d)), (split_once_app _ _ d _ _ Hs).
    apply split_once_Some in Hs as [_ Hl].
    change (String.length frame_end) with 4 in Hl.
    rewrite (IH r) by lia.
    destruct (split_frames r) as [events rest].
    by destruct (split_frames (rest +:+ d)) as [events' rest'].
  - by destruct (split_frames (b +:+ d)) as [events' rest'].
Qed.
End Framing.

Section ReadStep.
Variable iter_order : list string -> list string.

Lemma process_events_app self l1 l2 :
  process_events iter_order self (l1 ++ l2) =
  let '(self1, out1) := process_events iter_order self l1 in
  let '(self2, out2) := process_events iter_order self1 l2 in
  (self2, out1 ++ out2).
Proof.
  revert self. induction l1 as [|e l1 IH]; intros self.
  - cbn. by destruct (process_events iter_order self l2).
  - cbn [app process_events].
    destruct (_process_event iter_order self e) as [self1 out1].
    rewrite IH.
    destruct (process_events iter_order self1 l1) as [self2 out2].
    destruct (process_events iter_order self2 l2) as [self3 out3].
    by rewrite List.app_assoc.
Qed.

Lemma on_recv_data self buffer data :
  data <> "" ->
  on_recv iter_order self buffer (RecvData data) =
  let '(event_strs, rest) := split_frames (buffer +:+ data) in
  let '(self', out) := process_events iter_order self event_strs in
  (self', rest, out, []).
Proof. intros H%String.eqb_neq. unfold on_recv. by rewrite H. Qed.

Lemma str_app_nonempty_l (a b : string) : a <> "" -> a +:+ b <> "".
Proof. by destruct a. Qed.

Lemma on_recv_compose self buffer d1 d2 :
  d1 <> "" -> d2 <> "" ->
  on_recv iter_order self buffer (RecvData (d1 +:+ d2)) =
  let '(self1, buffer1, out1, _) := on_recv iter_order self buffer (RecvData d1) in
  let '(self2, buffer2, out2, _) := on_recv iter_order self1 buffer1 (RecvData d2) in
  (self2, buffer2, out1 ++ out2, []).
Proof.
  intros H1 H2.
  rewrite (on_recv_data self buffer (d1 +:+ d2)) by (by apply str_app_nonempty_l).
  rewrite (on_recv_data self buffer d1) by done.
  rewrite <- app_assoc, split_frames_app.
  destruct (split_frames (buffer +:+ d1)) as [events1 rest1].
  destruct (process_events iter_order self events1) as [self1 out1] eqn:Hp1.
  rewrite (on_recv_data self1 rest1 d2) by done.
  destruct (split_frames (rest1 +:+ d2)) as [events2 rest2].
  rewrite process_events_app, Hp1.
  by destruct (process_events iter_order self1 events2) as [self2 out2].
Qed.
End ReadStep.

(** X18: taking frames off the buffer loses nothing and cuts only at
    terminators.  The frames taken, each followed by the terminator, and
    then the buffer left, read as the buffer before; no frame and not the
    buffer left holds a terminator; and a buffer without a terminator gives
    no frame and stays as it is. *)
Theorem frames_reassemble (buffer : string) :
  buffer = fold_right (fun frame rest => frame +:+ frame_end +:+ rest)
             (snd (split_frames buffer)) (fst (split_frames buffer))
  /\ Forall (fun frame => str_in frame_end frame = false) (fst (split_frames buffer))
  /\ str_in frame_end (snd (split_frames buffer)) = false
  /\ (str_in frame_end buffer = false -> split_frames buffer = ([], buffer)).
Proof.
  destruct (split_frames_sound buffer) as (H1 & H2 & H3).
  split_and!; [exact H1|exact H2|exact H3|].
  intros H%split_once_None. by rewrite split_frames_step, H.
Qed.

Lemma frames_reassemble_witness :
  str_in frame_end "Event: Newstate" = false
  /\ split_frames "Event: Newstate" = ([], "Event: Newstate").
Proof.
  split; [reflexivity|].
  apply (proj2 (proj2 (proj2 (frames_reassemble "Event: Newstate")))).
  reflexivity.
Defined.

(** X19: frames may span reads, as long as every read decodes.  When two
    reads one after the other each decode to a non-empty text, and their
    bytes together decode to the two texts joined (as in UTF-8 when no
    character is cut), they leave the same object and the same buffer and
    emit the same Notifications in the same order as one read of all the
    bytes.  A read that does not decode on its own, such as one that ends
    inside a character of several bytes, loses what was received of the
    frame: the buffer is emptied, nothing is emitted and the object is
    marked disconnected with the status "Connection lost". *)
Theorem reads_compose (decode : list Byte.byte -> option string)
    (iter_order : list string -> list string) (self : ami) (buffer : string) :
  (forall raw1 raw2 d1 d2,
     decode raw1 = Some d1 -> decode raw2 = Some d2 ->
     decode (raw1 ++ raw2) = Some (d1 +:+ d2) ->
     d1 <> "" -> d2 <> "" ->
     loop_turn decode iter_order self buffer (SockBytes (raw1 ++ raw2)) =
     let '(self1, buffer1, out1, _) :=
       loop_turn decode iter_order self buffer (SockBytes raw1) in
     let '(self2, buffer2, out2, _) :=
       loop_turn decode iter_order self1 buffer1 (SockBytes raw2) in
     (self2, buffer2, out1 ++ out2, []))
  /\ (forall raw,
        decode raw = None ->
        loop_turn decode iter_order self buffer (SockBytes raw)
        = (set_connected self false, "", [], [(false, "Connection lost")])).
Proof.
  split.
  - intros raw1 raw2 d1 d2 H1 H2 H12 Hd1 Hd2.
    unfold loop_turn, recv_decode. rewrite H12, H1.
    rewrite (on_recv_compose iter_order self buffer d1 d2 Hd1 Hd2).
    destruct (on_recv iter_order self buffer (RecvData d1))
      as [[[self1 buffer1] out1] st1].
    by rewrite H2.
  - intros raw H. unfold loop_turn, recv_decode. by rewrite H.
Qed.

Lemma reads_compose_witness :
  let raw1 := list_byte_of_string (String.substring 0 40 sample_frame) in
  let raw2 := list_byte_of_string (str_drop 40 sample_frame) in
  loop_turn decode_ascii oldest_first watcher "" (SockBytes (raw1 ++ raw2))
  = (set_processed_calls watcher ["call_1700000000.1_0888123456"], "",
     [{| n_phone := "0888123456";
         n_metadata := dial_begin "1700000000.1" "0888123456" |}], [])
  /\ loop_turn decode_ascii oldest_first watcher "Event: Newstate"
       (SockBytes [Byte.xc3])
     = (set_connected watcher false, "", [], [(false, "Connection lost")]).
Proof.
  intros raw1 raw2.
  destruct (reads_compose decode_ascii oldest_first watcher "") as [Hjoin _].
  destruct (reads_compose decode_ascii oldest_first watcher "Event: Newstate")
    as [_ Hlost].
  split.
  - rewrite (Hjoin raw1 raw2 (String.substring 0 40 sample_frame)
               (str_drop 40 sample_frame));
      [vm_compute; reflexivity|vm_compute; reflexivity..
      |vm_compute; discriminate|vm_compute; discriminate].
  - apply Hlost. vm_compute. reflexivity.
Defined.

(** ** Frame decoding *)

Section Strip.
Implicit Types (s a b k w : string) (c : ascii).

Lemma lstrip_app_stop a c b :
  is_space c = false -> lstrip (a +:+ String c b) = lstrip a +:+ String c b.
Proof.
  intros Hc. induction a as [|x a IH].
  - rewrite !app_nil_l. cbn [lstrip]. by rewrite Hc.
  - rewrite app_cons. cbn [lstrip]. destruct (is_space x); [exact IH|].
    by rewrite app_cons.
Qed.

Lemma lstrip_idem s : lstrip (lstrip s) = lstrip s.
Proof.
  induction s as [|c s IH]; [reflexivity|]. cbn [lstrip].
  destruct (is_space c) eqn:Hc; [exact IH|]. cbn [lstrip]. by rewrite Hc.
Qed.

Lemma rstrip_idem s : rstrip (rstrip s) = rstrip s.
Proof.
  induction s as [|c s IH]; [reflexivity|]. cbn [rstrip].
  destruct (is_space c && String.eqb (rstrip s) "") eqn:Hc; [reflexivity|].
  cbn [rstrip]. by rewrite IH, Hc.
Qed.

Lemma rstrip_app_keep a b : rstrip b <> "" -> rstrip (a +:+ b) = a +:+ rstrip b.
Proof.
  intros Hb. induction a as [|x a IH]; [reflexivity|].
  rewrite !app_cons. cbn [rstrip]. rewrite IH.
  replace (String.eqb (a +:+ rstrip b) "") with false; [by rewrite andb_false_r|].
  symmetry. apply String.eqb_neq. intros H.
  apply (f_equal String.length) in H. rewrite app_length in H. cbn in H.
  apply Hb, length_zero_empty. lia.
Qed.

Lemma rstrip_stop c s : is_space c = false -> rstrip (String c s) = String c (rstrip s).
Proof. intros Hc. cbn [rstrip]. by rewrite Hc. Qed.

Lemma lstrip_rstrip s : lstrip (rstrip s) = rstrip (lstrip s).
Proof.
  induction s as [|c s IH]; [reflexivity|]. cbn [lstrip rstrip].
  destruct (is_space c) eqn:Hc; cbn [andb].
  - destruct (String.eqb (rstrip s) "") eqn:He.
    + apply String.eqb_eq in He. by rewrite <- IH, He.
    + cbn [lstrip]. by rewrite Hc.
  - cbn [lstrip rstrip]. by rewrite Hc.
Qed.

Lemma strip_idem s : strip (strip s) = strip s.
Proof.
  unfold strip. by rewrite lstrip_rstrip, lstrip_idem, rstrip_idem.
Qed.

Lemma strip_lstrip s : strip (lstrip s) = strip s.
Proof. unfold strip. by rewrite lstrip_idem. Qed.

Lemma strip_rstrip s : strip (rstrip s) = strip s.
Proof. unfold strip. by rewrite lstrip_rstrip, rstrip_idem. Qed.

Lemma partition_app_none c a b :
  partition c (a +:+ b) = None <-> partition c a = None /\ partition c b = None.
Proof.
  induction a as [|x a IH].
  - rewrite app_nil_l. cbn. tauto.
  - rewrite app_cons. cbn [partition]. destruct (Ascii.eqb x c).
    + split; [discriminate|by intros [? _]].
    + destruct (partition c (a +:+ b)) as [[??]|], (partition c a) as [[??]|].
      * split; [discriminate|by intros [? _]].
      * split; [discriminate|]. intros [_ H].
        assert (Hn : Some (s, s0) = None) by (by apply IH). discriminate.
      * destruct (proj1 IH eq_refl) as [? _]. discriminate.
      * split; [|done]. intros _. split; [done|]. by apply IH.
Qed.

Lemma partition_none_lstrip c s : partition c s = None -> partition c (lstrip s) = None.
Proof.
  induction s as [|x s IH]; [done|]. cbn [lstrip].
  destruct (is_space x); [|done]. cbn [partition].
  destruct (Ascii.eqb x c); [discriminate|].
  destruct (partition c s) as [[??]|]; [discriminate|]. intros _. by apply IH.
Qed.

Lemma partition_none_rstrip c s : partition c s = None -> partition c (rstrip s) = None.
Proof.
  induction s as [|x s IH]; [done|]. cbn [rstrip partition].
  destruct (Ascii.eqb x c) eqn:Hx; [discriminate|].
  destruct (partition c s) as [[??]|]; [discriminate|]. intros _.
  destruct (is_space x && _); [reflexivity|].
  cbn [partition]. by rewrite Hx, IH.
Qed.
End Strip.

Section Decoding.
Implicit Types (s l k w rest : string) (c : ascii).
Implicit Types (lines : list string) (fields : list (string * string)).
Implicit Types (event : gmap string string).

Lemma split_crlf_cons c s :
  Ascii.eqb c "013" = false ->
  split_crlf (String c s) = cons_head c (split_crlf s).
Proof.
  intros Hc. cbn [split_crlf]. destruct s as [|d s']; [reflexivity|].
  by rewrite Hc.
Qed.

Lemma split_crlf_line l : partition "013" l = None -> split_crlf l = [l].
Proof.
  induction l as [|c l IH]; [reflexivity|]. cbn [partition].
  destruct (Ascii.eqb c "013") eqn:Hc; [discriminate|].
  destruct (partition "013" l) as [[??]|]; [discriminate|]. intros _.
  by rewrite split_crlf_cons, IH.
Qed.

Lemma split_crlf_app_line l rest :
  partition "013" l = None ->
  split_crlf (l +:+ CRLF +:+ rest) = l :: split_crlf rest.
Proof.
  induction l as [|c l IH]; [reflexivity|]. cbn [partition].
  destruct (Ascii.eqb c "013") eqn:Hc; [discriminate|].
  destruct (partition "013" l) as [[??]|]; [discriminate|]. intros _.
  by rewrite app_cons, split_crlf_cons, IH.
Qed.

Lemma split_crlf_join lines :
  lines <> [] ->
  Forall (fun l => partition "013" l = None) lines ->
  split_crlf (join_lines lines) = lines.
Proof.
  induction lines as [|l lines IH]; [done|]. intros _ Hall.
  apply Forall_cons_1 in Hall as [Hl Hall].
  destruct lines as [|l' lines]; [by apply split_crlf_line|].
  cbn [join_lines]. rewrite split_crlf_app_line by done.
  f_equal. by apply IH.
Qed.

Lemma decode_raw_line event field :
  partition ":" (fst field) = None ->
  decode_line event (raw_line field)
  = <[strip (fst field) := strip (snd field)]> event.
Proof.
  intros H. unfold decode_line, raw_line.
  change (":" +:+ snd field) with (String ":" (snd field)).
  by rewrite (partition_app_sep ":" _ _ H).
Qed.

Lemma decode_raw_lines event fields :
  Forall (fun f => partition ":" (fst f) = None) fields ->
  fold_left decode_line (map raw_line fields) event
  = fold_left (fun ev f => <[fst f := snd f]> ev) (map stripped fields) event.
Proof.
  revert event. induction fields as [|f fields IH]; intros event Hall; [reflexivity|].
  apply Forall_cons_1 in Hall as [Hf Hall].
  cbn [map fold_left]. rewrite decode_raw_line by done. by apply IH.
Qed.

Lemma raw_line_no_cr field :
  partition "013" (fst field) = None -> partition "013" (snd field) = None ->
  partition "013" (raw_line field) = None.
Proof.
  intros Hk Hw. unfold raw_line. apply partition_app_none. split; [done|].
  change (":" +:+ snd field) with (String ":" (snd field)).
  cbn [partition]. change (Ascii.eqb ":" "013") with false. by rewrite Hw.
Qed.

Lemma join_raw_cons k w fields :
  join_lines (map raw_line ((k, w) :: fields))
  = k +:+ String ":" (w +:+ match fields with
                            | [] => ""
                            | _ => CRLF +:+ join_lines (map raw_line fields)
                            end).
Proof.
  destruct fields as [|f fields]; cbn [map join_lines]; unfold raw_line at 1;
    cbn [fst snd].
  - by rewrite app_empty_r.
  - by rewrite app_assoc.
Qed.

Lemma lstrip_frame fields :
  lstrip (join_lines (map raw_line fields))
  = join_lines (map raw_line (lstrip_first fields)).
Proof.
  destruct fields as [|[k w] fields]; [reflexivity|].
  cbn [lstrip_first]. rewrite !join_raw_cons.
  by apply lstrip_app_stop.
Qed.

Lemma rstrip_raw_line k w : rstrip (raw_line (k, w)) = raw_line (k, rstrip w).
Proof.
  unfold raw_line. cbn [fst snd].
  change (":" +:+ w) with (String ":" w).
  change (":" +:+ rstrip w) with (String ":" (rstrip w)).
  rewrite rstrip_app_keep; by rewrite rstrip_stop.
Qed.

Lemma raw_line_nonempty field : raw_line field <> "".
Proof.
  unfold raw_line. intros H. apply (f_equal String.length) in H.
  rewrite app_length in H.
  change (":" +:+ snd field) with (String ":" (snd field)) in H. cbn in H. lia.
Qed.

Lemma join_raw_nonempty fields :
  fields <> [] -> join_lines (map raw_line fields) <> "".
Proof.
  destruct fields as [|f fields]; [done|]. intros _.
  destruct fields as [|g fields]; cbn [map join_lines].
  - apply raw_line_nonempty.
  - intros H. apply (f_equal String.length) in H. rewrite app_length in H.
    pose proof (raw_line_nonempty f) as Hf.
    destruct (raw_line f); [done|]. cbn in H. lia.
Qed.

Lemma rstrip_last_nonempty fields : fields <> [] -> rstrip_last fields <> [].
Proof.
  destruct fields as [|[k w] fields]; [done|]. intros _. cbn [rstrip_last].
  by destruct fields.
Qed.

Lemma rstrip_frame fields :
  rstrip (join_lines (map raw_line fields))
  = join_lines (map raw_line (rstrip_last fields)).
Proof.
  induction fields as [|[k w] fields IH]; [reflexivity|].
  destruct fields as [|g fields].
  - cbn [rstrip_last map join_lines]. apply rstrip_raw_line.
  - change (rstrip_last ((k, w) :: g :: fields))
      with ((k, w) :: rstrip_last (g :: fields)).
    change (join_lines (map raw_line ((k, w) :: g :: fields)))
      with (raw_line (k, w) +:+ CRLF +:+ join_lines (map raw_line (g :: fields))).
    assert (Hne : rstrip (join_lines (map raw_line (g :: fields))) <> "").
    { rewrite IH. apply join_raw_nonempty. by apply rstrip_last_nonempty. }
    rewrite <- app_assoc, rstrip_app_keep by done. rewrite IH, app_assoc.
    pose proof (rstrip_last_nonempty (g :: fields) ltac:(done)) as Hl.
    destruct (rstrip_last (g :: fields)) as [|g' rest]; [done|].
    reflexivity.
Qed.

Lemma stripped_lstrip_first fields :
  map stripped (lstrip_first fields) = map stripped fields.
Proof.
  destruct fields as [|[k w] fields]; [reflexivity|].
  cbn [lstrip_first map]. unfold stripped at 1 3. cbn [fst snd].
  by rewrite strip_lstrip.
Qed.

Lemma stripped_rstrip_last fields :
  map stripped (rstrip_last fields) = map stripped fields.
Proof.
  induction fields as [|[k w] fields IH]; [reflexivity|].
  destruct fields as [|g fields].
  - cbn [rstrip_last map]. unfold stripped. cbn [fst snd]. by rewrite strip_rstrip.
  - change (rstrip_last ((k, w) :: g :: fields))
      with ((k, w) :: rstrip_last (g :: fields)).
    cbn [map] in *. by rewrite IH.
Qed.


Lemma well_formed_lstrip_first (P Q : string -> Prop) fields :
  (forall s, P s -> P (lstrip s)) ->
  Forall (fun f => P (fst f) /\ Q (snd f)) fields ->
  Forall (fun f => P (fst f) /\ Q (snd f)) (lstrip_first fields).
Proof.
  intros HP Hall. destruct fields as [|[k w] fields]; [done|].
  apply Forall_cons_1 in Hall as [[Hk Hw] Hall]. cbn [lstrip_first].
  constructor; [|done]. cbn [fst snd] in *. auto.
Qed.

Lemma well_formed_rstrip_last (P Q : string -> Prop) fields :
  (forall s, Q s -> Q (rstrip s)) ->
  Forall (fun f => P (fst f) /\ Q (snd f)) fields ->
  Forall (fun f => P (fst f) /\ Q (snd f)) (rstrip_last fields).
Proof.
  intros HQ. induction fields as [|[k w] fields IH]; [done|]. intros Hall.
  apply Forall_cons_1 in Hall as [[Hk Hw] Hall].
  destruct fields as [|g fields].
  - cbn [rstrip_last]. constructor; [|done]. cbn [fst snd] in *. auto.
  - change (rstrip_last ((k, w) :: g :: fields))
      with ((k, w) :: rstrip_last (g :: fields)).
    constructor; [done|]. by apply IH.
Qed.

(** Decoding a frame of lines "<name>:<value>". *)
Lemma parse_event_raw fields :
  Forall (fun f => (partition ":" (fst f) = None /\ partition "013" (fst f) = None)
                   /\ partition "013" (snd f) = None) fields ->
  parse_event (join_lines (map raw_line fields)) = record_of (map stripped fields).
Proof.
  intros Hall. unfold parse_event, record_of.
  change (fun (event : gmap string string) line =>
            match partition ":" line with
            | Some (key, value) => <[strip key := strip value]> event
            | None => event
            end) with decode_line.
  destruct fields as [|f0 fields0]; [reflexivity|].
  set (fields := f0 :: fields0) in *.
  assert (Hne : fields <> []) by done. clearbody fields.
  unfold strip at 1. rewrite lstrip_frame, rstrip_frame.
  assert (Hall' : Forall (fun f => (partition ":" (fst f) = None
                                    /\ partition "013" (fst f) = None)
                                   /\ partition "013" (snd f) = None)
                    (rstrip_last (lstrip_first fields))).
  { apply (well_formed_rstrip_last
             (fun k => partition ":" k = None /\ partition "013" k = None)
             (fun w => partition "013" w = None)).
    { intros s. apply partition_none_rstrip. }
    apply (well_formed_lstrip_first
             (fun k => partition ":" k = None /\ partition "013" k = None)
             (fun w => partition "013" w = None)); [|done].
    intros s [H1 H2]. split; by apply partition_none_lstrip. }
  rewrite split_crlf_join.
  - rewrite decode_raw_lines.
    + by rewrite stripped_rstrip_last, stripped_lstrip_first.
    + eapply List.Forall_impl; [|exact Hall']. by intros f [[? _] _].
  - intros H%map_eq_nil. revert H. apply rstrip_last_nonempty.
    by destruct fields as [|[??]?].
  - apply List.Forall_map. eapply List.Forall_impl; [|exact Hall'].
    intros f [[_ ?] ?]. by apply raw_line_no_cr.
Qed.
End Decoding.

Section DecodedFields.
Implicit Types (event : gmap string string) (lines : list string).

Lemma partition_before c s k v :
  partition c s = Some (k, v) -> partition c k = None.
Proof.
  revert k v. induction s as [|x s IH]; intros k v; [discriminate|].
  cbn [partition]. destruct (Ascii.eqb x c) eqn:Hx; [by intros [= <- _]|].
  destruct (partition c s) as [[k' v']|]; [|discriminate].
  intros [= <- _]. cbn [partition]. by rewrite Hx, (IH k' v' eq_refl).
Qed.

Lemma decode_lines_invariant (P : string -> string -> Prop) lines event :
  (forall line k v, partition ":" line = Some (k, v) -> P (strip k) (strip v)) ->
  (forall name value, event !! name = Some value -> P name value) ->
  forall name value,
    fold_left decode_line lines event !! name = Some value -> P name value.
Proof.
  intros HP. revert event. induction lines as [|line lines IH]; intros event Hev;
    [exact Hev|].
  cbn [fold_left]. apply IH. unfold decode_line.
  destruct (partition ":" line) as [[k v]|] eqn:Hp; [|exact Hev].
  intros name value [[<- <-]|[_ H]]%lookup_insert_Some; [by eapply HP|by apply Hev].
Qed.

Lemma field_line_raw field : field_line field = raw_line (fst field, " " +:+ snd field).
Proof. reflexivity. Qed.

Lemma strip_space_cons s : strip (" " +:+ s) = strip s.
Proof. reflexivity. Qed.
End DecodedFields.

(** X20: decoding a frame gives back its fields.  For any list of lines
    "<name>:<value>" joined by CR LF, where no name holds a colon and no
    name or value holds a carriage return, the decoded record maps each
    name, without surrounding blanks, to its value, without surrounding
    blanks; of two lines with one name the later counts.  In particular a
    frame written "<name>: <value>" from names and values that have no
    surrounding blanks decodes to exactly these fields. *)
Theorem frame_decoding (fields : list (string * string)) :
  Forall (fun f => (partition ":" (fst f) = None /\ partition "013" (fst f) = None)
                   /\ partition "013" (snd f) = None) fields ->
  parse_event (join_lines (map raw_line fields)) = record_of (map stripped fields)
  /\ (Forall (fun f => strip (fst f) = fst f /\ strip (snd f) = snd f) fields ->
      parse_event (frame_of fields) = record_of fields).
Proof.
  intros Hall. split; [by apply parse_event_raw|]. intros Hclean.
  unfold frame_of.
  replace (map field_line fields)
    with (map raw_line (map (fun f => (fst f, " " +:+ snd f)) fields))
    by (by rewrite map_map).
  rewrite parse_event_raw.
  - f_equal. rewrite map_map. rewrite <- (map_id fields) at 2.
    apply map_ext_Forall. eapply List.Forall_impl; [|exact Hclean].
    intros [k v] [Hk Hv]. unfold stripped. cbn [fst snd] in *.
    by rewrite strip_space_cons, Hk, Hv.
  - apply List.Forall_map. eapply List.Forall_impl; [|exact Hall].
    intros [k v] [[H1 H2] H3]. cbn [fst snd] in *. split; [done|].
    change (" " +:+ v) with (String " " v). cbn [partition].
    change (Ascii.eqb " " "013") with false. by rewrite H3.
Qed.

Lemma frame_decoding_witness :
  parse_event
    (frame_of [("Event", "Newstate"); ("Channel", "SIP/1034-00000a1b");
               ("ChannelStateDesc", "Ringing"); ("ConnectedLineNum", "0888123456");
               ("CallerIDNum", "1034"); ("Uniqueid", "1700000000.2");
               ("Linkedid", "1700000000.1"); ("CallerIDName", "")])
  = record_of [("Event", "Newstate"); ("Channel", "SIP/1034-00000a1b");
               ("ChannelStateDesc", "Ringing"); ("ConnectedLineNum", "0888123456");
               ("CallerIDNum", "1034"); ("Uniqueid", "1700000000.2");
               ("Linkedid", "1700000000.1"); ("CallerIDName", "")].
Proof.
  apply (frame_decoding
           [("Event", "Newstate"); ("Channel", "SIP/1034-00000a1b");
            ("ChannelStateDesc", "Ringing"); ("ConnectedLineNum", "0888123456");
            ("CallerIDNum", "1034"); ("Uniqueid", "1700000000.2");
            ("Linkedid", "1700000000.1"); ("CallerIDName", "")]).
  - repeat constructor.
  - repeat constructor.
Defined.

(** X21: what a decoded record can hold.  Whatever the frame, every field
    name in the record is free of colons and of surrounding blanks, and
    every value is free of surrounding blanks. *)
Theorem decoded_fields_stripped (event_str name value : string) :
  parse_event event_str !! name = Some value ->
  strip name = name /\ partition ":" name = None /\ strip value = value.
Proof.
  unfold parse_event.
  change (fun (event : gmap string string) line =>
            match partition ":" line with
            | Some (key, value) => <[strip key := strip value]> event
            | None => event
            end) with decode_line.
  apply (decode_lines_invariant
           (fun n v => strip n = n /\ partition ":" n = None /\ strip v = v)).
  - intros line k v Hp. split_and!; [apply strip_idem| |apply strip_idem].
    unfold strip. apply partition_none_rstrip, partition_none_lstrip.
    by apply partition_before in Hp.
  - intros n v H. by rewrite lookup_empty in H.
Qed.

Lemma decoded_fields_stripped_witness :
  parse_event " Event :  DialBegin  " !! "Event" = Some "DialBegin"
  /\ strip "DialBegin" = "DialBegin".
Proof.
  split; [vm_compute; reflexivity|].
  apply (decoded_fields_stripped " Event :  DialBegin  " "Event" "DialBegin").
  vm_compute. reflexivity.
Defined.

(** ** Version comparison *)

Section Versions.
Implicit Types (a b c : list Z) (s : string) (parts : list string).

Lemma list_gt_irrefl a : list_gt a a = false.
Proof. induction a as [|x a IH]; [reflexivity|]. cbn. by rewrite Z.eqb_refl. Qed.

Lemma list_gt_asym a b : list_gt a b = true -> list_gt b a = false.
Proof.
  revert b. induction a as [|x a IH]; intros [|y b]; cbn; try done.
  rewrite (Z.eqb_sym y x). destruct (Z.eqb_spec x y); [apply IH|].
  intros H%Z.ltb_lt. apply Z.ltb_ge. lia.
Qed.

Lemma list_gt_trans a b c :
  list_gt a b = true -> list_gt b c = true -> list_gt a c = true.
Proof.
  revert b c. induction a as [|x a IH]; intros [|y b] [|z c]; cbn; try done.
  destruct (Z.eqb_spec x y), (Z.eqb_spec y z), (Z.eqb_spec x z);
    try lia; try apply IH; try done;
    rewrite ?Z.ltb_lt; lia.
Qed.

Lemma is_newer_parts latest current :
  _is_newer latest current = true ->
  exists lp cp,
    all_ints (split_on "." latest) = Some lp
    /\ all_ints (split_on "." current) = Some cp
    /\ list_gt lp cp = true.
Proof.
  unfold _is_newer.
  destruct (all_ints (split_on "." latest)) as [lp|]; [|done].
  destruct (all_ints (split_on "." current)) as [cp|]; [|done]. eauto.
Qed.

Lemma is_newer_of_parts latest current lp cp :
  all_ints (split_on "." latest) = Some lp ->
  all_ints (split_on "." current) = Some cp ->
  _is_newer latest current = list_gt lp cp.
Proof. intros H1 H2. unfold _is_newer. by rewrite H1, H2. Qed.

Lemma digit_not_int_space (x : ascii) : is_digit x = true -> is_int_space x = false.
Proof. by destruct x as [[] [] [] [] [] [] [] []]. Qed.

Lemma digit_not_sign (x : ascii) :
  is_digit x = true ->
  Ascii.eqb x "+" = false /\ Ascii.eqb x "-" = false /\ Ascii.eqb x "." = false.
Proof. by destruct x as [[] [] [] [] [] [] [] []]. Qed.

Lemma lstrip_by_digits s : only_digits s = true -> lstrip_by is_int_space s = s.
Proof.
  destruct s as [|x s]; [done|]. cbn [only_digits lstrip_by].
  intros [Hx _]%andb_true_iff. by rewrite (digit_not_int_space _ Hx).
Qed.

Lemma rstrip_by_digits s : only_digits s = true -> rstrip_by is_int_space s = s.
Proof.
  induction s as [|x s IH]; [done|]. cbn [only_digits rstrip_by].
  intros [Hx Hs]%andb_true_iff. by rewrite (digit_not_int_space _ Hx), IH.
Qed.

Lemma scan_int_digits s acc :
  only_digits s = true -> scan_int acc true s = Some (digits_value acc s).
Proof.
  revert acc. induction s as [|x s IH]; intros acc; [done|].
  cbn [only_digits scan_int digits_value].
  intros [Hx Hs]%andb_true_iff. rewrite Hx. by apply IH.
Qed.

Lemma count_digits_only s : only_digits s = true -> count_digits s = String.length s.
Proof.
  induction s as [|x s IH]; [done|]. cbn [only_digits count_digits String.length].
  intros [Hx Hs]%andb_true_iff. by rewrite Hx, IH.
Qed.

(** On a non-empty string of at most 4300 digits [int] reads its decimal
    value. *)
Lemma py_int_digits s :
  only_digits s = true -> s <> "" ->
  String.length s <= int_max_str_digits ->
  py_int s = Some (digits_value 0 s).
Proof.
  intros Hd Hne Hlen. unfold py_int.
  rewrite (lstrip_by_digits _ Hd), (rstrip_by_digits _ Hd).
  destruct s as [|x s]; [done|].
  unfold int_literal. rewrite (count_digits_only _ Hd).
  apply Nat.leb_le in Hlen. rewrite Hlen.
  cbn [only_digits] in Hd. apply andb_true_iff in Hd as [Hx Hs].
  destruct (digit_not_sign _ Hx) as (-> & -> & _).
  cbn [scan_int digits_value]. rewrite Hx. by apply scan_int_digits.
Qed.

(** On more than 4300 digits [int] raises. *)
Lemma py_int_long s :
  only_digits s = true -> int_max_str_digits < String.length s ->
  py_int s = None.
Proof.
  intros Hd Hlen. unfold py_int.
  rewrite (lstrip_by_digits _ Hd), (rstrip_by_digits _ Hd).
  destruct s as [|x s]; [done|].
  unfold int_literal. rewrite (count_digits_only _ Hd).
  apply Nat.leb_gt in Hlen. rewrite Hlen.
  cbn [only_digits] in Hd. apply andb_true_iff in Hd as [Hx Hs].
  by destruct (digit_not_sign _ Hx) as (-> & -> & _).
Qed.

Lemma all_ints_digits parts :
  Forall (fun p => only_digits p = true /\ p <> "") parts ->
  forallb (fun p => String.length p <=? int_max_str_digits) parts = true ->
  all_ints parts = Some (map (digits_value 0) parts).
Proof.
  induction parts as [|p parts IH]; [done|]. intros Hall Hlen.
  apply Forall_cons_1 in Hall as [[Hd Hne] Hall].
  cbn [forallb] in Hlen. apply andb_true_iff in Hlen as [Hp Hlen].
  apply Nat.leb_le in Hp.
  cbn [all_ints map]. by rewrite py_int_digits, IH.
Qed.

Lemma only_digits_no_dot s : only_digits s = true -> partition "." s = None.
Proof.
  induction s as [|x s IH]; [done|]. cbn [only_digits partition].
  intros [Hx Hs]%andb_true_iff.
  destruct (digit_not_sign _ Hx) as (_ & _ & ->). by rewrite IH.
Qed.

Lemma split_on_line sep s : partition sep s = None -> split_on sep s = [s].
Proof.
  induction s as [|x s IH]; [done|]. cbn [partition split_on].
  destruct (Ascii.eqb x sep); [done|].
  destruct (partition sep s) as [[??]|]; [done|]. intros _. by rewrite IH.
Qed.

Lemma split_on_app sep s rest :
  partition sep s = None ->
  split_on sep (s +:+ String sep rest) = s :: split_on sep rest.
Proof.
  induction s as [|x s IH].
  - intros _. rewrite app_nil_l. cbn [split_on]. by rewrite Ascii.eqb_refl.
  - cbn [partition]. destruct (Ascii.eqb x sep) eqn:Hx; [done|].
    destruct (partition sep s) as [[??]|]; [done|]. intros _.
    rewrite app_cons. cbn [split_on]. by rewrite Hx, IH.
Qed.

Lemma split_on_join parts :
  parts <> [] ->
  Forall (fun p => partition "." p = None) parts ->
  split_on "." (join_dots parts) = parts.
Proof.
  induction parts as [|p parts IH]; [done|]. intros _ Hall.
  apply Forall_cons_1 in Hall as [Hp Hall].
  destruct parts as [|q parts]; [by apply split_on_line|].
  change (join_dots (p :: q :: parts))
    with (p +:+ String "." (join_dots (q :: parts))).
  rewrite split_on_app by done. f_equal. by apply IH.
Qed.

Lemma digits_no_dots parts :
  Forall (fun p => only_digits p = true /\ p <> "") parts ->
  Forall (fun p => partition "." p = None) parts.
Proof.
  intros Hall. eapply List.Forall_impl; [|exact Hall].
  intros p [Hd _]. by apply only_digits_no_dot.
Qed.

Lemma all_ints_dotted parts :
  parts <> [] ->
  Forall (fun p => only_digits p = true /\ p <> "") parts ->
  forallb (fun p => String.length p <=? int_max_str_digits) parts = true ->
  all_ints (split_on "." (join_dots parts)) = Some (map (digits_value 0) parts).
Proof.
  intros Hne Hall Hlen.
  rewrite split_on_join; [by apply all_ints_digits|done|by apply digits_no_dots].
Qed.

Lemma all_ints_too_long parts :
  parts <> [] ->
  Forall (fun p => only_digits p = true /\ p <> "") parts ->
  forallb (fun p => String.length p <=? int_max_str_digits) parts = false ->
  all_ints (split_on "." (join_dots parts)) = None.
Proof.
  intros Hne Hall Hlen.
  rewrite split_on_join; [|done|by apply digits_no_dots].
  clear Hne. induction parts as [|p parts IH]; [done|].
  apply Forall_cons_1 in Hall as [[Hd Hp] Hall].
  cbn [forallb] in Hlen. cbn [all_ints].
  destruct (Nat.leb_spec (String.length p) int_max_str_digits) as [Hle|Hgt].
  - rewrite py_int_digits by done. by rewrite IH.
  - by rewrite py_int_long.
Qed.

Lemma all_ints_None parts p :
  In p parts -> py_int p = None -> all_ints parts = None.
Proof.
  induction parts as [|q parts IH]; [done|]. intros [->|Hin] Hp; cbn [all_ints].
  - by rewrite Hp.
  - destruct (py_int q); [|done]. by rewrite IH.
Qed.
End Versions.

(** X22: "newer than" is a strict order on version strings: no version is
    newer than itself, two versions are never each newer than the other,
    and newer than newer is newer. *)
Theorem is_newer_strict_order :
  (forall v, _is_newer v v = false)
  /\ (forall a b, _is_newer a b = true -> _is_newer b a = false)
  /\ (forall a b c,
        _is_newer a b = true -> _is_newer b c = true -> _is_newer a c = true).
Proof.
  split_and!.
  - intros v. unfold _is_newer.
    destruct (all_ints (split_on "." v)); [apply list_gt_irrefl|done].
  - intros a b (lp & cp & H1 & H2 & H)%is_newer_parts.
    rewrite (is_newer_of_parts b a cp lp) by done. by apply list_gt_asym.
  - intros a b c (pa & pb & H1 & H2 & Hab)%is_newer_parts
                 (pb' & pc & H3 & H4 & Hbc)%is_newer_parts.
    rewrite H2 in H3. injection H3 as <-.
    rewrite (is_newer_of_parts a c pa pc) by done.
    by apply (list_gt_trans pa pb pc).
Qed.

Lemma is_newer_strict_order_witness :
  _is_newer "1.2.0" "1.1.9" = true /\ _is_newer "1.1.9" "1.2.0" = false.
Proof.
  split; [reflexivity|].
  apply (proj1 (proj2 is_newer_strict_order) "1.2.0" "1.1.9"). reflexivity.
Defined.

(** X23: versions are compared number by number, not character by
    character.  For two versions written as non-empty groups of digits
    joined by dots, each group of at most 4300 digits, [_is_newer] is the
    order of the first group where the decimal values differ; when one
    version is the other followed by more groups, the longer one is the
    newer.  When a group of either version has more than 4300 digits,
    [int] raises and [_is_newer] returns False. *)
Theorem is_newer_numeric (latest current : list string) :
  latest <> [] -> current <> [] ->
  Forall (fun p => only_digits p = true /\ p <> "") latest ->
  Forall (fun p => only_digits p = true /\ p <> "") current ->
  _is_newer (join_dots latest) (join_dots current)
  = if forallb (fun p => String.length p <=? int_max_str_digits)
         (latest ++ current)
    then list_gt (map (digits_value 0) latest) (map (digits_value 0) current)
    else false.
Proof.
  intros H1 H2 H3 H4. rewrite forallb_app.
  destruct (forallb _ latest) eqn:Hl; cbn [andb].
  - destruct (forallb _ current) eqn:Hc.
    + apply is_newer_of_parts; by apply all_ints_dotted.
    + unfold _is_newer. rewrite (all_ints_too_long current) by done.
      by destruct (all_ints _).
  - unfold _is_newer. by rewrite (all_ints_too_long latest).
Qed.

Lemma is_newer_numeric_witness :
  _is_newer "1.10.0" "1.9.0" = true
  /\ _is_newer "1.0.0" "1.0" = true
  /\ _is_newer "1.02" "1.2" = false
  /\ _is_newer (str_repeat "1" 4301) "1" = false.
Proof.
  split_and!.
  - change (_is_newer (join_dots ["1"; "10"; "0"]) (join_dots ["1"; "9"; "0"]) = true).
    rewrite is_newer_numeric; [reflexivity|done|done|repeat constructor; done..].
  - change (_is_newer (join_dots ["1"; "0"; "0"]) (join_dots ["1"; "0"]) = true).
    rewrite is_newer_numeric; [reflexivity|done|done|repeat constructor; done..].
  - change (_is_newer (join_dots ["1"; "02"]) (join_dots ["1"; "2"]) = false).
    rewrite is_newer_numeric; [reflexivity|done|done|repeat constructor; done..].
  - change (_is_newer (join_dots [str_repeat "1" 4301]) (join_dots ["1"]) = false).
    rewrite is_newer_numeric;
      [vm_compute; reflexivity|done|done
      |constructor; [split; [vm_compute; reflexivity|vm_compute; discriminate]
                    |constructor]
      |repeat constructor; done].
Defined.

(** X24: a version that is not made of integers is never newer and nothing
    is newer than it.  When a dot-separated part of either argument is not
    an integer literal for [int] (an empty part, a letter, a suffix such as
    "-beta"), [_is_newer] returns False. *)
Theorem is_newer_malformed (latest current part : string) :
  In part (split_on "." latest) \/ In part (split_on "." current) ->
  py_int part = None ->
  _is_newer latest current = false.
Proof.
  intros [Hin|Hin] Hp; unfold _is_newer.
  - by rewrite (all_ints_None _ _ Hin Hp).
  - rewrite (all_ints_None _ _ Hin Hp). by destruct (all_ints _).
Qed.

Lemma is_newer_malformed_witness :
  In "0-beta" (split_on "." "2.0.0-beta")
  /\ py_int "0-beta" = None
  /\ _is_newer "2.0.0-beta" "1.0.0" = false.
Proof.
  assert (Hin : In "0-beta" (split_on "." "2.0.0-beta")) by (cbn; tauto).
  split_and!; [exact Hin|reflexivity|].
  apply (is_newer_malformed "2.0.0-beta" "1.0.0" "0-beta"); [by left|reflexivity].
Defined.

(** ** Order search *)

Section OrderSearchFacts.
Variable wcapi_get : string -> api_result.
Variable same_id : json -> json -> bool.
Implicit Types (st : list json * list json) (order : json) (N : string).

Lemma examine_order_cases N st order st' :
  examine_order same_id N st order = Some st' ->
  st' = st
  \/ exists id billing_phone,
       order_id order = Some id
       /\ existsb (same_id id) (snd st) = false
       /\ billing_phone_of order = Some billing_phone
       /\ _phone_matches N (normalize_phone billing_phone) = true
       /\ st' = (fst st ++ [order], snd st ++ [id]).
Proof.
  unfold examine_order, billing_phone_of, order_id.
  destruct order as [| | | | | |items|members]; try discriminate.
  destruct (obj_get members "id") as [id|]; [|discriminate].
  destruct (negb (hashable id)); [discriminate|].
  destruct (existsb (same_id id) (snd st)) eqn:Hseen; [intros [= <-]; by left|].
  destruct (default (JObj []) (obj_get members "billing"))
    as [| | | | | |?|billing]; try discriminate.
  destruct (default (JStr "") (obj_get billing "phone"))
    as [| | | | |billing_phone| |]; try discriminate.
  cbn zeta.
  destruct (_phone_matches N (normalize_phone billing_phone)) eqn:Hm;
    intros [= <-]; [|by left].
  right. by exists id, billing_phone.
Qed.

Lemma search_invariant_step (Q : json -> Prop) N st order st' :
  Q order ->
  search_invariant same_id Q N st ->
  examine_order same_id N st order = Some st' ->
  search_invariant same_id Q N st'.
Proof.
  intros HQ Hinv [->|(id & bp & Hid & Hnew & Hbp & Hm & ->)]%examine_order_cases;
    [done|].
  destruct Hinv as (Ha & Hb & Hc). cbn [fst snd]. split_and!.
  - apply Forall_app. split; [done|]. constructor; [|constructor]. eauto.
  - apply Forall2_app; [done|]. by constructor.
  - intros earlier id' later Heq.
    destruct later as [|y later _] using rev_ind.
    + apply app_inj_tail in Heq as [<- <-]. exact Hnew.
    + rewrite app_comm_cons, List.app_assoc in Heq.
      apply app_inj_tail in Heq as [Heq _]. by apply (Hc _ _ _ Heq).
Qed.

Lemma search_invariant_orders (Q : json -> Prop) N st orders st' :
  Forall Q orders ->
  search_invariant same_id Q N st ->
  examine_orders same_id N st orders = Some st' ->
  search_invariant same_id Q N st'.
Proof.
  revert st. induction orders as [|o orders IH]; intros st HQ Hinv; cbn.
  - by intros [= <-].
  - apply Forall_cons_1 in HQ as [Ho HQ].
    destruct (examine_order same_id N st o) as [st1|] eqn:H1; [|discriminate].
    apply IH; [done|]. by eapply search_invariant_step.
Qed.

Lemma search_invariant_all (Q : json -> Prop) N st terms st' :
  (forall term body items order,
     In term terms ->
     wcapi_get term = ApiResponse 200 (Some body) ->
     iterate body = Some items -> In order items -> Q order) ->
  search_invariant same_id Q N st ->
  search_all wcapi_get same_id N st terms = Some st' ->
  search_invariant same_id Q N st'.
Proof.
  revert st. induction terms as [|term terms IH]; intros st HQ Hinv; cbn.
  - by intros [= <-].
  - destruct (search_one wcapi_get same_id N st term) as [st1|] eqn:H1;
      [|discriminate].
    apply IH; [intros; eapply HQ; eauto; by right|].
    revert H1. unfold search_one.
    destruct (wcapi_get term) as [|code body] eqn:Hget; [discriminate|].
    destruct (Z.eqb_spec code 200) as [->|_]; [|by intros [= <-]].
    destruct body as [body|]; [|discriminate].
    destruct (iterate body) as [items|] eqn:Hit; [|discriminate].
    apply search_invariant_orders; [|done].
    apply List.Forall_forall. intros o Ho. eapply HQ; eauto. by left.
Qed.

Lemma search_invariant_init (Q : json -> Prop) N :
  search_invariant same_id Q N ([], []).
Proof.
  split_and!; [constructor|constructor|].
  intros [|??] id later H; discriminate.
Qed.

(** A search term on which the shop raises ends the whole search. *)
Lemma search_all_raises N st terms term :
  In term terms ->
  wcapi_get term = ApiRaises \/ wcapi_get term = ApiResponse 200 None ->
  search_all wcapi_get same_id N st terms = None.
Proof.
  revert st. induction terms as [|t terms IH]; intros st; [done|].
  intros [->|Hin] Hr; cbn [search_all].
  - unfold search_one. by destruct Hr as [-> | ->].
  - destruct (search_one wcapi_get same_id N st t); [by apply IH|done].
Qed.

(** With an empty normal form nothing is ever kept. *)
Lemma examine_orders_empty st orders st' :
  examine_orders same_id "" st orders = Some st' -> fst st' = fst st.
Proof.
  revert st. induction orders as [|o orders IH]; intros st; cbn.
  - by intros [= <-].
  - destruct (examine_order same_id "" st o) as [st1|] eqn:H1; [|discriminate].
    intros H%IH. rewrite H.
    apply examine_order_cases in H1 as [->|(id & bp & _ & _ & _ & Hm & _)];
      [done|]. by rewrite _phone_matches_empty_l in Hm.
Qed.

Lemma search_all_empty st terms st' :
  search_all wcapi_get same_id "" st terms = Some st' -> fst st' = fst st.
Proof.
  revert st. induction terms as [|t terms IH]; intros st; cbn.
  - by intros [= <-].
  - destruct (search_one wcapi_get same_id "" st t) as [st1|] eqn:H1;
      [|discriminate].
    intros H%IH. rewrite H. revert H1. unfold search_one.
    destruct (wcapi_get t) as [|code body]; [discriminate|].
    destruct (code =? 200)%Z; [|by intros [= <-]].
    destruct body as [body|]; [|discriminate].
    destruct (iterate body) as [items|]; [|discriminate].
    apply examine_orders_empty.
Qed.
End OrderSearchFacts.

(** X25: the search returns matching orders only.  Whatever the shop
    answers, every order returned came in the body of a 200 answer to one
    of the search terms, is an object with a string as billing phone, and
    that billing phone matches the searched phone (both normalized, then
    [_phone_matches]). *)
Theorem search_returns_matches (wcapi_get : string -> api_result)
    (same_id : json -> json -> bool) (phone : string) (order : json) :
  In order (search_orders_by_phone wcapi_get same_id phone) ->
  (exists billing_phone,
     billing_phone_of order = Some billing_phone
     /\ lookup_match phone billing_phone = true)
  /\ exists term body items,
       In term (search_variants phone)
       /\ wcapi_get term = ApiResponse 200 (Some body)
       /\ iterate body = Some items /\ In order items.
Proof.
  unfold search_orders_by_phone. intros Hin.
  destruct (search_all wcapi_get same_id (normalize_phone phone) ([], [])
              (search_variants phone)) as [[found seen]|] eqn:Hs; [|done].
  apply (search_invariant_all wcapi_get same_id
           (fun o => exists term body items,
                       In term (search_variants phone)
                       /\ wcapi_get term = ApiResponse 200 (Some body)
                       /\ iterate body = Some items /\ In o items)) in Hs
    as (Ha & _); [|by eauto 8|apply search_invariant_init].
  cbn [fst] in Ha. rewrite List.Forall_forall in Ha.
  destruct (Ha order Hin) as [HQ Hm]. by split.
Qed.

Lemma search_returns_matches_witness :
  In (sample_order 7993 "+359 888 123 456")
     (search_orders_by_phone sample_shop plain_id_eqb "0888123456")
  /\ lookup_match "0888123456" "+359 888 123 456" = true.
Proof.
  assert (Hin : In (sample_order 7993 "+359 888 123 456")
                  (search_orders_by_phone sample_shop plain_id_eqb "0888123456")).
  { vm_compute. by left. }
  split; [exact Hin|].
  destruct (proj1 (search_returns_matches sample_shop plain_id_eqb "0888123456"
                     (sample_order 7993 "+359 888 123 456") Hin))
    as (bp & Hbp & Hm).
  injection Hbp as <-. exact Hm.
Defined.

(** X26: one failure empties the result.  When the shop raises on one of
    the search terms, or its answer to one of them has status 200 and a
    body that does not decode, the search returns the empty list, whatever
    the other terms found. *)
Theorem search_failure_returns_nothing (wcapi_get : string -> api_result)
    (same_id : json -> json -> bool) (phone term : string) :
  In term (search_variants phone) ->
  wcapi_get term = ApiRaises \/ wcapi_get term = ApiResponse 200 None ->
  search_orders_by_phone wcapi_get same_id phone = [].
Proof.
  intros Hin Hr. unfold search_orders_by_phone.
  by rewrite (search_all_raises wcapi_get same_id _ _ _ term Hin Hr).
Qed.

Lemma search_failure_returns_nothing_witness :
  let shop := fun term => if String.eqb term "0888123456"
                          then ApiRaises else sample_shop term in
  In "0888123456" (search_variants "+359888123456")
  /\ search_orders_by_phone shop plain_id_eqb "+359888123456" = [].
Proof.
  intros shop.
  assert (Hin : In "0888123456" (search_variants "+359888123456"))
    by (vm_compute; tauto).
  split; [exact Hin|].
  apply (search_failure_returns_nothing shop plain_id_eqb "+359888123456"
           "0888123456" Hin).
  by left.
Defined.

(** X27: a phone without any digit finds no order, whatever the shop
    answers. *)
Theorem search_without_digits (wcapi_get : string -> api_result)
    (same_id : json -> json -> bool) (phone : string) :
  strip_non_digits phone = "" ->
  search_orders_by_phone wcapi_get same_id phone = [].
Proof.
  intros H%normalize_phone_empty. unfold search_orders_by_phone. rewrite H.
  destruct (search_all wcapi_get same_id "" ([], []) (search_variants phone))
    as [[found seen]|] eqn:Hs; [|done].
  by apply search_all_empty in Hs.
Qed.

Lemma search_without_digits_witness :
  strip_non_digits "unknown" = ""
  /\ search_orders_by_phone sample_shop plain_id_eqb "unknown" = [].
Proof.
  split; [reflexivity|].
  by apply (search_without_digits sample_shop plain_id_eqb "unknown").
Defined.

(** X28: no order is returned twice.  Every order returned has an
    identifier, and its identifier equals that of no order returned before
    it, even when several search terms bring the same order. *)
Theorem search_returns_each_once (wcapi_get : string -> api_result)
    (same_id : json -> json -> bool) (phone : string)
    (before after : list json) (order : json) :
  search_orders_by_phone wcapi_get same_id phone = before ++ order :: after ->
  exists id,
    order_id order = Some id
    /\ forall other other_id,
         In other before -> order_id other = Some other_id ->
         same_id id other_id = false.
Proof.
  unfold search_orders_by_phone.
  destruct (search_all wcapi_get same_id (normalize_phone phone) ([], [])
              (search_variants phone)) as [[found seen]|] eqn:Hs;
    [|by destruct before].
  intros ->.
  apply (search_invariant_all wcapi_get same_id (fun _ => True)) in Hs
    as (_ & Hb & Hc); [|done|apply search_invariant_init].
  cbn [fst snd] in *.
  apply Forall2_app_inv_l in Hb as (ids1 & ids2 & Hb1 & Hb2 & ->).
  apply Forall2_cons_inv_l in Hb2 as (id & ids3 & Hid & _ & ->).
  exists id. split; [exact Hid|].
  intros other other_id Hin Hother.
  specialize (Hc ids1 id ids3 eq_refl).
  assert (Hmem : In other_id ids1).
  { clear -Hb1 Hin Hother. induction Hb1 as [|o i os ids Hoi _ IH]; [done|].
    destruct Hin as [->|Hin]; [left; congruence|right; by apply IH]. }
  destruct (same_id id other_id) eqn:Hsame; [|done].
  assert (existsb (same_id id) ids1 = true); [|congruence].
  apply existsb_exists. eauto.
Qed.

Lemma search_returns_each_once_witness :
  let first := sample_order 1 "0888123456" in
  let second := sample_order 2 "0888 123 456" in
  let shop := fun _ : string =>
                ApiResponse 200 (Some (JArr [first; second; first])) in
  search_orders_by_phone shop plain_id_eqb "+359888123456"
  = [first] ++ second :: []
  /\ exists id,
       order_id second = Some id
       /\ forall other other_id,
            In other [first] -> order_id other = Some other_id ->
            plain_id_eqb id other_id = false.
Proof.
  intros first second shop.
  assert (Hr : search_orders_by_phone shop plain_id_eqb "+359888123456"
               = [first] ++ second :: []) by (vm_compute; reflexivity).
  split; [exact Hr|].
  exact (search_returns_each_once shop plain_id_eqb "+359888123456"
           [first] [] second Hr).
Defined.

(** X29: every spelling the search sends to the shop denotes the searched
    number.  For a phone with a digit, each search term (the phone as
    given, its normal form, and for a normal form of 9 digits the spellings
    with +359, 359 and 0 in front) is matched with the phone by the lookup
    itself. *)
Theorem search_terms_match_phone (phone term : string) :
  strip_non_digits phone <> "" ->
  In term (search_variants phone) ->
  lookup_match phone term = true.
Proof.
  intros Hdig Hin. unfold lookup_match.
  destruct (normalize_phone_shape phone) as (k & Hk & Hlen & _).
  set (N := normalize_phone phone) in *.
  assert (HN : N <> "") by (intros E; by apply normalize_phone_empty in E).
  assert (Hd : only_digits N = true).
  { rewrite Hk. apply only_digits_drop, only_digits_strip. }
  assert (Hself : normalize_phone N = N).
  { rewrite normalize_phone_short; rewrite (strip_only_digits _ Hd); done. }
  unfold search_variants in Hin. fold N in Hin.
  apply in_app_or in Hin as [[<-|[]]|Hin]; [by apply _phone_matches_refl|].
  apply in_app_or in Hin as [Hin|Hin].
  { destruct (negb (String.eqb N phone)); [|done].
    destruct Hin as [<-|[]]. rewrite Hself. by apply _phone_matches_refl. }
  destruct (Nat.eqb_spec (String.length N) 9) as [H9|_]; [|done].
  destruct (normalize_359 N Hd) as [Hplus _]; [lia|].
  destruct Hin as [<-|[<-|[<-|[]]]].
  - rewrite Hplus. by apply _phone_matches_refl.
  - replace (normalize_phone ("359" +:+ N)) with (normalize_phone ("+359" +:+ N)).
    + rewrite Hplus. by apply _phone_matches_refl.
    + unfold normalize_phone. by rewrite !strip_non_digits_app.
  - assert (Hd0 : only_digits ("0" +:+ N) = true) by (by rewrite only_digits_app, Hd).
    rewrite (normalize_phone_short ("0" +:+ N));
      rewrite (strip_only_digits _ Hd0); [|rewrite app_length; cbn; lia].
    apply _phone_matches_spec. split_and!; [done|done|].
    left. exists "0", "". by rewrite app_empty_r.
Qed.

Lemma search_terms_match_phone_witness :
  strip_non_digits "+359 888 123 456" <> ""
  /\ In "0888123456" (search_variants "+359 888 123 456")
  /\ lookup_match "+359 888 123 456" "0888123456" = true.
Proof.
  assert (Hd : strip_non_digits "+359 888 123 456" <> "") by (vm_compute; discriminate).
  assert (Hin : In "0888123456" (search_variants "+359 888 123 456"))
    by (vm_compute; tauto).
  split_and!; [exact Hd|exact Hin|].
  exact (search_terms_match_phone "+359 888 123 456" "0888123456" Hd Hin).
Defined.
